(** * Chemical-composition table extraction: a shallow embedding

    This development embeds the table reconstruction and numeric / element
    normalisation engine of the repository ([src/parsing.py],
    [src/table_detect.py], [src/utils/config.py]) and proves properties of it.

    Conventions of the embedding.
    - Python [str] is [string]; characters are read as 7-bit ASCII code
      points (the character classes below are those of ASCII text).
    - Python [int] is [Z].
    - Python [float] is [Q], kept in lowest terms so that results can be
      compared with [=].  Arithmetic is exact: the rounding of binary
      floating point is abstracted, and so are overflow to infinity and the
      interpreter's limit on the length of integer literals.
    - [Optional[float]] is [option Q]; [None] is the "unparseable" signal.
    - Caught exceptions ([ValueError], [TypeError]) are the [None] branches
      of the parsers.
    - Where the rounding of floats, an [OverflowError] or the limit of
      [int()] decides a property, the code is read a second time over an
      arbitrary arithmetic (module [Machine]), of which the exact
      rationals are one instance and the binary floats of the interpreter
      another; a property that is stated on the exact rationals and needs
      short inputs to hold of binary floats says so in a hypothesis. *)

From Stdlib Require Import ZArith QArith Qabs Lqa String Ascii List Lia Bool.
From Stdlib Require Import Sorting.Sorted Sorting.Permutation.
From Stdlib Require Floats.SpecFloat.
From stdpp Require Import base gmap strings.

Import ListNotations.
Close Scope Q_scope.
Open Scope string_scope.
Open Scope Z_scope.

(** ** Configuration constants ([src/utils/config.py]) *)

Module Config.

Definition ELEMENT_SYMBOLS : list string :=
  ["Al"; "V"; "Fe"; "C"; "N"; "O"; "Y"; "H"].

Definition COMPOSITION_UNITS : list string :=
  ["wt.%"; "wt%"; "%"; "weight%"; "mass%"].

Definition TABLE_KEYWORDS : list string :=
  ["composition"; "chemical"; "element"; "requirement"; "actual"; "sample"].

End Config.

(** ** Python string primitives *)

Module Str.

Definition code (c : ascii) : N := N_of_ascii c.

Definition in_range (lo hi : N) (c : ascii) : bool :=
  ((lo <=? code c) && (code c <=? hi))%N.

(** [\d] and [str.isdigit] on ASCII text. *)
Definition is_digit (c : ascii) : bool := in_range 48 57 c.

(** [str.isspace] / [\s]: TAB, LF, VT, FF, CR, FS, GS, RS, US, SPACE. *)
Definition is_space (c : ascii) : bool :=
  in_range 9 13 c || in_range 28 31 c || (code c =? 32)%N.

(** C-level [Py_ISSPACE], used by [float()] and [int()] on ASCII text. *)
Definition is_c_space (c : ascii) : bool :=
  in_range 9 13 c || (code c =? 32)%N.

Definition is_upper (c : ascii) : bool := in_range 65 90 c.
Definition is_lower (c : ascii) : bool := in_range 97 122 c.

Definition lower_char (c : ascii) : ascii :=
  if is_upper c then ascii_of_N (code c + 32) else c.

Definition upper_char (c : ascii) : ascii :=
  if is_lower c then ascii_of_N (code c - 32) else c.

Fixpoint map_chars (f : ascii -> ascii) (s : string) : string :=
  match s with
  | EmptyString => EmptyString
  | String c r => String (f c) (map_chars f r)
  end.

(** [s.lower()] and [s.upper()]. *)
Definition lower (s : string) : string := map_chars lower_char s.
Definition upper (s : string) : string := map_chars upper_char s.

Definition is_empty (s : string) : bool :=
  match s with EmptyString => true | _ => false end.

Fixpoint lstrip_by (p : ascii -> bool) (s : string) : string :=
  match s with
  | String c r => if p c then lstrip_by p r else s
  | EmptyString => EmptyString
  end.

Fixpoint rstrip_by (p : ascii -> bool) (s : string) : string :=
  match s with
  | String c r =>
      let r' := rstrip_by p r in
      if p c && is_empty r' then EmptyString else String c r'
  | EmptyString => EmptyString
  end.

(** [s.strip()]. *)
Definition strip (s : string) : string := rstrip_by is_space (lstrip_by is_space s).

(** [s.startswith(p)]. *)
Fixpoint startswith (s p : string) : bool :=
  match p, s with
  | EmptyString, _ => true
  | String a p', String b s' => Ascii.eqb a b && startswith s' p'
  | String _ _, EmptyString => false
  end.

(** [sub in s]. *)
Fixpoint contains (s sub : string) : bool :=
  startswith s sub ||
  match s with
  | String _ r => contains r sub
  | EmptyString => false
  end.

(** [c in s] for a one-character [c]. *)
Fixpoint has_char (c : ascii) (s : string) : bool :=
  match s with
  | String d r => Ascii.eqb c d || has_char c r
  | EmptyString => false
  end.

(** [s.replace(old, new)] for a one-character [old]. *)
Fixpoint replace1 (old : ascii) (new : string) (s : string) : string :=
  match s with
  | String c r =>
      if Ascii.eqb c old then new ++ replace1 old new r
      else String c (replace1 old new r)
  | EmptyString => EmptyString
  end.

(** [sep.join(parts)]. *)
Fixpoint join (sep : string) (parts : list string) : string :=
  match parts with
  | [] => EmptyString
  | [p] => p
  | p :: rest => p ++ sep ++ join sep rest
  end.

Fixpoint filter_chars (p : ascii -> bool) (s : string) : string :=
  match s with
  | String c r => if p c then String c (filter_chars p r) else filter_chars p r
  | EmptyString => EmptyString
  end.

(** Longest prefix of characters satisfying [p], and the rest. *)
Fixpoint span (p : ascii -> bool) (s : string) : string * string :=
  match s with
  | String c r =>
      if p c then let (a, b) := span p r in (String c a, b)
      else (EmptyString, s)
  | EmptyString => (EmptyString, EmptyString)
  end.

Definition slen (s : string) : Z := Z.of_nat (String.length s).

(** [s[1:]]. *)
Definition tail (s : string) : string :=
  match s with String _ r => r | EmptyString => EmptyString end.

Definition str_in (s : string) (l : list string) : bool :=
  existsb (String.eqb s) l.

End Str.

(** ** Regular expressions used by the parsers

    Each pattern of the source is embedded as the function that
    [re.sub] / [re.search] computes for it. *)

Module Re.
Import Str.

(** [[^\d\-]]: the characters removed by [re.sub(r'[^\d\-]', '', s)]. *)
Definition digit_or_minus (c : ascii) : bool := is_digit c || Ascii.eqb c "-".

(** [re.sub(r'[^\d\-]', '', s)]. *)
Definition sub_non_numeric (s : string) : string := filter_chars digit_or_minus s.

(** [re.sub(r'(\d)\s+(\d)', r'\1\2', s)].

    Matches are leftmost and do not overlap.  The scanner remembers whether
    the previous character was a digit that may still open a match
    ([Some ws], with [ws] the white space read since, most recent first),
    or not ([None]: start of text, a non-digit, or a digit that closed a
    match and was consumed by it). *)
Fixpoint rev_onto (ws : list ascii) (s : string) : string :=
  match ws with
  | [] => s
  | c :: r => rev_onto r (String c s)
  end.

Fixpoint sub_gap (pend : option (list ascii)) (s : string) : string :=
  match s with
  | EmptyString =>
      match pend with Some ws => rev_onto ws EmptyString | None => EmptyString end
  | String c r =>
      match pend with
      | None =>
          if is_digit c then String c (sub_gap (Some []) r)
          else String c (sub_gap None r)
      | Some ws =>
          if is_space c then sub_gap (Some (c :: ws)) r
          else if is_digit c then
            match ws with
            | [] => String c (sub_gap (Some []) r)
            | _ :: _ => String c (sub_gap None r)
            end
          else rev_onto ws (String c (sub_gap None r))
      end
  end.

Definition sub_digit_gaps (s : string) : string := sub_gap None s.

(** [[\d,\.]]. *)
Definition num_char (c : ascii) : bool :=
  is_digit c || Ascii.eqb c "," || Ascii.eqb c ".".

(** [re.search(r'[\d,\.]+', s)], returning [m.group()]. *)
Fixpoint search_number (s : string) : option string :=
  match s with
  | EmptyString => None
  | String c r =>
      if num_char c then Some (fst (span num_char s))
      else search_number r
  end.

(** [re.search(r'[\d,\.]+(?:-[\d,\.]+)?', s)], returning [m.group()]. *)
Fixpoint search_number_range (s : string) : option string :=
  match s with
  | EmptyString => None
  | String c r =>
      if num_char c then
        let (a, rest) := span num_char s in
        match rest with
        | String "-" rest' =>
            let (b, _) := span num_char rest' in
            if is_empty b then Some a else Some (a ++ "-" ++ b)
        | _ => Some a
        end
      else search_number_range r
  end.

(** [s.split('-')]. *)
Fixpoint split_minus (s : string) : list string :=
  match s with
  | EmptyString => [EmptyString]
  | String c r =>
      if Ascii.eqb c "-" then EmptyString :: split_minus r
      else match split_minus r with
           | p :: ps => String c p :: ps
           | [] => [String c EmptyString]
           end
  end.

End Re.

(** ** Python numbers: [int()], [float()] and float arithmetic *)

Module Num.
Import Str.

Definition digit_val (c : ascii) : Z := Z.of_N (code c) - 48.

Fixpoint digits_acc (acc : Z) (s : string) : Z :=
  match s with
  | EmptyString => acc
  | String c r => digits_acc (10 * acc + digit_val c) r
  end.

(** The value of a string of decimal digits. *)
Definition digits_value (s : string) : Z := digits_acc 0 s.

Fixpoint all_chars (p : ascii -> bool) (s : string) : bool :=
  match s with
  | EmptyString => true
  | String c r => p c && all_chars p r
  end.

Definition is_underscore (c : ascii) : bool := Ascii.eqb c "_".

(** Digit-group underscores (PEP 515): an underscore must stand between
    two digits.  [prev] is the previous character, if any. *)
Fixpoint underscores_ok (prev : option ascii) (s : string) : bool :=
  match s with
  | EmptyString =>
      match prev with Some p => negb (is_underscore p) | None => true end
  | String c r =>
      (if is_underscore c
       then match prev with Some p => is_digit p | None => false end
       else match prev with
            | Some p => if is_underscore p then is_digit c else true
            | None => true
            end)
      && underscores_ok (Some c) r
  end.

Definition take_sign (s : string) : bool * string :=
  match s with
  | String "-" r => (true, r)
  | String "+" r => (false, r)
  | _ => (false, s)
  end.

Definition c_strip (s : string) : string :=
  rstrip_by is_c_space (lstrip_by is_c_space s).

(** [int(s)] in base 10; [None] stands for [ValueError]. *)
Definition int_of_string (s : string) : option Z :=
  let s := c_strip s in
  let (neg, body) := take_sign s in
  if negb (underscores_ok None body) then None else
  let ds := filter_chars (fun c => negb (is_underscore c)) body in
  if is_empty ds || negb (all_chars is_digit ds) then None
  else Some (if neg then - digits_value ds else digits_value ds).

(** Floats are rationals in lowest terms. *)
Definition of_int (z : Z) : Q := inject_Z z.

Definition fdiv (a b : Q) : Q := Qred (a / b).
Definition fadd (a b : Q) : Q := Qred (a + b).

Definition fltb (a b : Q) : bool := negb (Qle_bool b a).
Definition fleb (a b : Q) : bool := Qle_bool a b.

(** [m * 10 ** e] as a float. *)
Definition scale10 (m e : Z) : Q :=
  if 0 <=? e then Qred (inject_Z (m * 10 ^ e))
  else Qred (Qmake m (Z.to_pos (10 ^ (- e)))).

(** The exponent part of a float literal: empty, or [e] / [E], an optional
    sign and at least one digit, up to the end of the text. *)
Definition parse_exponent (s : string) : option Z :=
  match s with
  | EmptyString => Some 0
  | String c r =>
      if Ascii.eqb c "e" || Ascii.eqb c "E" then
        let (neg, r1) := take_sign r in
        let (ds, r2) := span is_digit r1 in
        if is_empty ds || negb (is_empty r2) then None
        else Some (if neg then - digits_value ds else digits_value ds)
      else None
  end.

(** [float(s)] on text; [None] stands for [ValueError].  The literal is
    [sign? (digits ('.' digits?)? | '.' digits) exponent?] between optional
    white space, with PEP 515 underscores.  The spellings [inf], [infinity]
    and [nan] have no rational value and are not accepted here; the
    normaliser only calls [float()] on text that contains a dot, which none
    of them does. *)
Definition float_literal (s : string) : option Q :=
  let (neg, s1) := take_sign s in
  let (ip, s2) := span is_digit s1 in
  let (fp, s3) :=
    match s2 with
    | String "." r => span is_digit r
    | _ => (EmptyString, s2)
    end in
  if is_empty ip && is_empty fp then None else
  match parse_exponent s3 with
  | None => None
  | Some e =>
      let m := digits_value (ip ++ fp) in
      Some (scale10 (if neg then - m else m) (e - slen fp))
  end.

Definition float_of_string (s : string) : option Q :=
  let s := c_strip s in
  if negb (underscores_ok None s) then None
  else float_literal (filter_chars (fun c => negb (is_underscore c)) s).

End Num.

(** ** Stable sorting, as Python's [sorted] and [list.sort] with a key *)

Module Sort.

Section SortBy.
Context {A K : Type} (lt : K -> K -> bool) (key : A -> K).

(** [x] goes before the first element that is not smaller than it, so
    that elements with equal keys keep their order. *)
Fixpoint insert_by (x : A) (l : list A) : list A :=
  match l with
  | [] => [x]
  | y :: l' =>
      if lt (key y) (key x) then y :: insert_by x l' else x :: y :: l'
  end.

Definition sort_by (l : list A) : list A := fold_right insert_by [] l.

End SortBy.

(** Ascending order of integer keys. *)
Definition key_le {A} (key : A -> Z) (a b : A) : Prop := key a <= key b.

End Sort.

(** ** [src/parsing.py] *)

Module Parsing.
Import Str Re Num Sort.

Definition PRIORITY_ELEMENTS : list string :=
  ["Al"; "V"; "Fe"; "C"; "N"; "O"; "Y"; "H"].

(** [ELEMENT_ORDER.get(elem, 999)]. *)
Fixpoint index_from (i : Z) (elem : string) (l : list string) : Z :=
  match l with
  | [] => 999
  | x :: l' => if String.eqb elem x then i else index_from (i + 1) elem l'
  end.

Definition element_order (elem : string) : Z := index_from 0 elem PRIORITY_ELEMENTS.

Definition infer_decimal_placement (value_str : string) (is_trace_element : bool)
  : option Q :=
  let clean_str := sub_non_numeric value_str in
  if is_empty clean_str || String.eqb clean_str "-" then None else
  match int_of_string clean_str with
  | None => None
  | Some num =>
      let n := of_int num in
      if is_trace_element then
        if num <? 10 then Some (fdiv n 1000)
        else if num <? 100 then Some (fdiv n 10000)
        else if num <? 1000 then Some (fdiv n 10000)
        else Some (fdiv n 1000000)
      else if num =? 0 then Some 0%Q
      else if num <? 10 then Some n
      else if num <? 100 then
        if num mod 10 =? 0 then Some (fdiv n 10)
        else if num <? 30 then Some (fdiv n 100)
        else Some (fdiv n 10)
      else if num <? 1000 then
        if num <? 100 then
          if num <? 10 then Some (fdiv n 1000) else Some (fdiv n 1000)
        else if num <? 200 then Some (fdiv n 100)
        else Some (fdiv n 100)
      else if num <? 10000 then
        if num <? 100 then Some (fdiv n 10000)
        else if num <? 1000 then Some (fdiv n 10000)
        else Some (fdiv n 1000)
      else Some (fdiv n (of_int (10 ^ (slen clean_str - 1))))
  end.

(** Lines 114-129 of [normalize_number]: the trace flag and the cleaned
    text on which parsing is attempted. *)
Definition clean_token (value : string) : bool * string :=
  let value := strip value in
  let is_trace := startswith value "<" in
  let value := if is_trace then strip (tail value) else value in
  let value := replace1 "," "." value in
  let value := replace1 "%" "" value in
  let value := sub_digit_gaps value in
  (is_trace, value).

(** Lines 147-154 of [normalize_number]. *)
Definition infer_from (value : string) (is_trace : bool) : option Q :=
  let value := sub_non_numeric value in
  if is_empty value || String.eqb value "-" then None
  else infer_decimal_placement value is_trace.

Definition normalize_number (value : string) : option Q :=
  if is_empty value then None else
  let (is_trace, value) := clean_token value in
  if has_char "." value then
    match float_of_string value with
    | Some num =>
        if fltb 100 num && negb is_trace then
          if fltb 1000 num then Some (fdiv num 1000) else Some (fdiv num 10)
        else Some num
    | None => infer_from (replace1 "." "" value) is_trace
    end
  else infer_from value is_trace.

Definition percent_units : list string := ["wt.%"; "wt%"; "%"; "weight%"; "mass%"].

Definition is_valid_composition_value (value : Q) (unit : string) : bool :=
  if str_in unit percent_units then
    if fltb value 0 then fltb (Qabs value) (1 # 10)
    else fleb 0 value && fleb value 100
  else fleb 0 value.

Definition ocr_corrections : gmap string (option string) :=
  list_to_map
    [("Kin", Some "Mn"); ("kin", Some "Mn"); ("5", Some "S"); ("Oe", None);
     ("c", Some "C"); ("si", Some "Si"); ("cr", Some "Cr"); ("ni", Some "Ni");
     ("mo", Some "Mo"); ("cu", Some "Cu"); ("nb", Some "Nb"); ("al", Some "Al");
     ("fe", Some "Fe"); ("ti", Some "Ti"); ("v", Some "V"); ("n", Some "N");
     ("o", Some "O"); ("h", Some "H"); ("y", Some "Y")].

(** Truth value of an [Optional[str]]. *)
Definition truthy (o : option string) : bool :=
  match o with Some s => negb (is_empty s) | None => false end.

(** The three [for symbol in PRIORITY_ELEMENTS] scans of
    [extract_element_symbol]. *)
Definition first_symbol (p : string -> bool) : option string :=
  List.find p PRIORITY_ELEMENTS.

Definition match_symbols (text : string) : option string :=
  let text_lower := lower text in
  if str_in text PRIORITY_ELEMENTS then Some text else
  match first_symbol (fun symbol => String.eqb (upper text) (upper symbol)) with
  | Some symbol => Some symbol
  | None =>
  match first_symbol (fun symbol =>
          startswith text symbol || startswith text_lower (lower symbol)) with
  | Some symbol => Some symbol
  | None =>
      first_symbol (fun symbol =>
          contains text symbol || contains text_lower (lower symbol))
  end
  end.

Definition extract_element_symbol (text : string) : option string :=
  let text := strip text in
  let text_lower := lower text in
  let after_lower :=
    match ocr_corrections !! text_lower with
    | Some corrected =>
        if truthy corrected && str_in (default "" corrected) PRIORITY_ELEMENTS
        then corrected else match_symbols text
    | None => match_symbols text
    end in
  match ocr_corrections !! text with
  | Some corrected =>
      if truthy corrected && str_in (default "" corrected) PRIORITY_ELEMENTS
      then corrected
      else match corrected with None => None | Some _ => after_lower end
  | None => after_lower
  end.

Definition extract_unit (text : string) : string :=
  let text := lower text in
  match List.find (fun unit => contains text (lower unit)) Config.COMPOSITION_UNITS with
  | Some unit => unit
  | None => "wt.%"
  end.

Record record := mkRecord {
  element_symbol : string;
  value : Q;
  unit : string
}.

Definition Grid := list (list string).

Fixpoint enumerate_from {A} (i : nat) (l : list A) : list (nat * A) :=
  match l with
  | [] => []
  | x :: l' => (i, x) :: enumerate_from (S i) l'
  end.

Definition enumerate {A} (l : list A) : list (nat * A) := enumerate_from 0 l.

(** [elem and elem not in seen_elements]. *)
Definition fresh (seen : gset string) (elem : option string) : bool :=
  match elem with
  | Some e => negb (is_empty e) && bool_decide (e ∉ seen)
  | None => false
  end.

(** [element_symbol is None or element_symbol in seen_elements]. *)
Definition none_or_seen (seen : gset string) (elem : option string) : bool :=
  match elem with
  | Some e => bool_decide (e ∈ seen)
  | None => true
  end.

(** Header search of lines 286-293. *)
Definition is_header_row (row : list string) : bool :=
  let row_text := lower (join " " row) in
  existsb (fun symbol => contains row_text (lower symbol)) Config.ELEMENT_SYMBOLS
  || contains row_text "element".

Fixpoint find_header (i : nat) (rows : Grid) : nat :=
  match rows with
  | [] => 0%nat
  | row :: rest => if is_header_row row then i else find_header (S i) rest
  end.

(** Tuple order on the sort keys [(x[1], x[0])] and [(x[1], abs(x[0]))]. *)
Definition key_lt (a b : nat * Q) : bool :=
  (fst a <? fst b)%nat || ((fst a =? fst b)%nat && fltb (snd a) (snd b)).

(** Strategy 1: the first column is the element, later columns are values. *)
Definition strategy1 (unit : string) (seen : gset string) (row : list string)
  : option string * option Q :=
  if (2 <=? length row)%nat then
    let element_symbol := extract_element_symbol (nth 0 row "") in
    if fresh seen element_symbol then
      let candidates :=
        flat_map (fun '(col_idx, col) =>
                    match normalize_number col with
                    | Some num => [(num, S col_idx)]
                    | None => []
                    end) (enumerate (List.tail row)) in
      match candidates with
      | [] => (element_symbol, None)
      | _ :: _ =>
          let valid_candidates :=
            List.filter (fun '(v, idx) => is_valid_composition_value v unit) candidates in
          match valid_candidates with
          | _ :: _ =>
              (element_symbol,
               fst <$> head (sort_by key_lt (fun x => (snd x, fst x)) valid_candidates))
          | [] =>
              (element_symbol,
               fst <$> head (sort_by key_lt (fun x => (snd x, Qabs (fst x))) candidates))
          end
      end
    else (element_symbol, None)
  else (None, None).

(** Strategy 2: element-value pairs inside the row.  The loop state is
    [(element_symbol, value)]; [break] is the early return. *)
Fixpoint strategy2 (seen : gset string) (row : list string)
    (cells : list (nat * string)) (st : option string * option Q)
  : option string * option Q :=
  match cells with
  | [] => st
  | (cell_idx, cell) :: rest =>
      let elem := extract_element_symbol cell in
      if fresh seen elem then
        let value :=
          match search_number cell with
          | Some group => normalize_number group
          | None =>
              let value :=
                if (S cell_idx <? length row)%nat
                then normalize_number (nth (S cell_idx) row "")
                else snd st in
              match value with
              | None =>
                  if (0 <? cell_idx)%nat
                  then normalize_number (nth (pred cell_idx) row "")
                  else value
              | Some _ => value
              end
          end in
        match value with
        | Some _ => (elem, value)
        | None => strategy2 seen row rest (elem, value)
        end
      else strategy2 seen row rest st
  end.

(** Strategy 3: the headers are the elements. *)
Fixpoint strategy3 (seen : gset string) (row : list string)
    (headers : list (nat * string)) (st : option string * option Q)
  : option string * option Q :=
  match headers with
  | [] => st
  | (col_idx, header) :: rest =>
      let elem := extract_element_symbol header in
      if fresh seen elem && (col_idx <? length row)%nat then
        let value := normalize_number (nth col_idx row "") in
        match value with
        | Some _ => (elem, value)
        | None => strategy3 seen row rest (elem, value)
        end
      else strategy3 seen row rest st
  end.

(** What one data row yields: the element and value held when line 369 is
    reached. *)
Definition parse_row (unit : string) (headers : list string)
    (seen : gset string) (row : list string) : option string * option Q :=
  let st := strategy1 unit seen row in
  let st :=
    if none_or_seen seen (fst st) then strategy2 seen row (enumerate row) st
    else st in
  if match fst st with None => true | Some _ => false end
     && (1 <? length headers)%nat
  then strategy3 seen row (enumerate headers) st
  else st.

(** One iteration of the row loop (lines 309-375) on the state
    [(all_parsed_values, seen_elements)]. *)
Definition row_step (unit : string) (headers : list string)
    (st : list record * gset string) (row : list string)
  : list record * gset string :=
  let (all_parsed_values, seen) := st in
  if match row with [] => true | _ => false end
     || forallb (fun cell => is_empty (strip cell)) row
  then st
  else
    let (element_symbol, value) := parse_row unit headers seen row in
    match element_symbol, value with
    | Some e, Some v =>
        if fresh seen element_symbol && is_valid_composition_value v unit
        then ((all_parsed_values ++ [mkRecord e v unit])%list, seen ∪ {[e]})
        else st
    | _, _ => st
    end.

Definition set_value (item : record) (v : Q) : record :=
  mkRecord (element_symbol item) v (unit item).

(** [sum(values_list)]. *)
Definition sum_values (l : list Q) : Q := fold_left fadd l 0%Q.

Definition mean (l : list Q) : Q :=
  fdiv (sum_values l) (of_int (Z.of_nat (length l))).

(** Lines 377-389: the correction pass over the kept records. *)
Definition post_process (all_parsed_values : list record) : list record :=
  match all_parsed_values with
  | [] => []
  | _ :: _ =>
      let values_list := map value all_parsed_values in
      let avg_value := mean values_list in
      if fltb 50 avg_value then
        map (fun item => set_value item (fdiv (value item) 100)) all_parsed_values
      else if fltb 20 avg_value then
        map (fun item =>
               if fltb 50 (value item)
               then set_value item (fdiv (value item) 100)
               else item) all_parsed_values
      else all_parsed_values
  end.

(** [l.sort(key=lambda x: ELEMENT_ORDER.get(x['element_symbol'], 999))]. *)
Definition sort_by_priority (l : list record) : list record :=
  sort_by Z.ltb (fun x => element_order (element_symbol x)) l.

(** The records kept by the row loop, before correction and sorting. *)
Definition kept_records (table_data : Grid) : list record :=
  let header_row_idx := find_header 0 (firstn 3 table_data) in
  let headers := nth header_row_idx table_data [] in
  let header_text := lower (join " " headers) in
  let unit := extract_unit header_text in
  let data_start := S header_row_idx in
  fst (fold_left (row_step unit headers) (skipn data_start table_data) ([], ∅)).

Definition parse_table_to_composition_data (table_data : Grid) : list record :=
  if (length table_data <? 2)%nat then []
  else sort_by_priority (post_process (kept_records table_data)).

(** One iteration of the cell loop of the fallback (lines 421-451). *)
Definition cell_step (unit : string) (st : list record * gset string)
    (cell : string) : list record * gset string :=
  let (composition_data, seen) := st in
  let cell := strip cell in
  if is_empty cell then st else
  let element_symbol := extract_element_symbol cell in
  if fresh seen element_symbol then
    match search_number_range cell with
    | Some num_str =>
        let value :=
          if has_char "-" num_str && negb (startswith num_str "-") then
            match split_minus num_str with
            | [p0; p1] =>
                match normalize_number p0 with
                | Some val1 => Some val1
                | None => normalize_number p1
                end
            | _ => normalize_number num_str
            end
          else normalize_number num_str in
        match element_symbol, value with
        | Some e, Some v =>
            if is_valid_composition_value v unit
            then ((composition_data ++ [mkRecord e v unit])%list, seen ∪ {[e]})
            else st
        | _, _ => st
        end
    | None => st
    end
  else st.

(** The records found by the fallback scan, before sorting. *)
Definition scanned_records (table_data : Grid) : list record :=
  let flat_text := lower (join " " (map (join " ") table_data)) in
  let unit := extract_unit flat_text in
  fst (fold_left (fun st row => fold_left (cell_step unit) row st)
                 table_data ([], ∅)).

Definition parse_table_simple_heuristic (table_data : Grid) : list record :=
  sort_by_priority (scanned_records table_data).

End Parsing.

(** ** [src/table_detect.py] *)

Module TableDetect.
Import Str Sort.

Record fragment := mkFragment {
  text : string;
  left : Z;
  top : Z;
  width : Z;
  height : Z;
  confidence : Z
}.

Definition row_tolerance : Z := 25.
Definition col_tolerance : Z := 30.

(** [item['top'] + item['height'] // 2]. *)
Definition y_center (item : fragment) : Z := top item + height item / 2.

(** The first key of [rows], in insertion order, within the tolerance. *)
Fixpoint find_row (y : Z) (keys : list Z) : option Z :=
  match keys with
  | [] => None
  | row_y :: keys' =>
      if Z.abs (y - row_y) <? row_tolerance then Some row_y
      else find_row y keys'
  end.

(** [rows[k].append(item)] on a [defaultdict(list)] kept in insertion order. *)
Fixpoint append_to (k : Z) (item : fragment) (rows : list (Z * list fragment))
  : list (Z * list fragment) :=
  match rows with
  | [] => [(k, [item])]
  | (k', items) :: rest =>
      if k =? k' then (k', (items ++ [item])%list) :: rest
      else (k', items) :: append_to k item rest
  end.

Definition assign_row (rows : list (Z * list fragment)) (item : fragment)
  : list (Z * list fragment) :=
  let yc := y_center item in
  let matched_row := default yc (find_row yc (map fst rows)) in
  append_to matched_row item rows.

Definition group_rows (ocr_results : list fragment) : list (Z * list fragment) :=
  fold_left assign_row ocr_results [].

(** [sorted(rows.items())]: the keys of a dict are distinct, so the order
    of the pairs is the order of their keys. *)
Definition sorted_rows (ocr_results : list fragment) : list (Z * list fragment) :=
  sort_by Z.ltb fst (group_rows ocr_results).

(** [sorted(items, key=lambda x: x['left'])]. *)
Definition sorted_items (items : list fragment) : list fragment :=
  sort_by Z.ltb left items.

(** [row_text[-1] = row_text[-1] + t]. *)
Fixpoint append_last (row_text : list string) (t : string) : list string :=
  match row_text with
  | [] => []
  | [c] => [(c ++ t)%string]
  | c :: rest => c :: append_last rest t
  end.

(** The cell loop of lines 60-66 on the state [(prev_item, row_text)]. *)
Fixpoint merge_cells (prev_item : option fragment) (row_text : list string)
    (items : list fragment) : list string :=
  match items with
  | [] => row_text
  | item :: rest =>
      let row_text' :=
        match prev_item with
        | Some prev =>
            if left item - left prev - width prev <? col_tolerance
            then append_last row_text (text item)
            else (row_text ++ [text item])%list
        | None => (row_text ++ [text item])%list
        end in
      merge_cells (Some item) row_text' rest
  end.

Definition row_cells (items : list fragment) : list string :=
  merge_cells None [] (sorted_items items).

(** The parameters [min_rows] and [min_cols] of the source are never read
    and are left out. *)
Definition detect_table_regions (ocr_results : list fragment) : list (list string) :=
  match ocr_results with
  | [] => []
  | _ :: _ =>
      List.filter (fun row_text => match row_text with [] => false | _ => true end)
        (map (fun '(row_y, items) => row_cells items) (sorted_rows ocr_results))
  end.

Definition count_if {A} (p : A -> bool) (l : list A) : Z :=
  Z.of_nat (length (List.filter p l)).

Definition flat_text (table_data : list (list string)) : string :=
  lower (join " " (map (join " ") table_data)).

Definition keyword_matches (table_data : list (list string)) : Z :=
  count_if (fun keyword => contains (flat_text table_data) (lower keyword))
           Config.TABLE_KEYWORDS.

Definition element_matches (table_data : list (list string)) : Z :=
  count_if (fun symbol => contains (flat_text table_data) symbol)
           Config.ELEMENT_SYMBOLS.

Definition is_chemical_composition_table (table_data : list (list string)) : bool :=
  (2 <=? keyword_matches table_data) || (3 <=? element_matches table_data).

End TableDetect.

(** ** The string form of a float

    [str(v)] writes the shortest decimal that reads back as [v]: a sign,
    the significant digits and the position [decpt] of the decimal point
    ([v = 0.d1d2...dn * 10 ** decpt]).  The layout below is the one of the
    interpreter's [repr] mode: exponent notation when [decpt <= -4] or
    [decpt > 16], positional notation otherwise, always with a digit after
    the point in positional notation. *)

Module FloatRepr.
Import Str Num.

Record decimal := mkDecimal {
  neg : bool;
  digits : string;
  decpt : Z
}.

(** Digit strings of a double: 1 to 17 significant digits, and a decimal
    exponent within the range of the format. *)
Definition well_formed (d : decimal) : Prop :=
  all_chars is_digit (digits d) = true
  /\ 1 <= slen (digits d) <= 17
  /\ -324 < decpt d < 310.

Definition dec_value (d : decimal) : Q :=
  let m := digits_value (digits d) in
  scale10 (if neg d then - m else m) (decpt d - slen (digits d)).

(** The characters of a float's string form. *)
Definition plain_char (c : ascii) : bool :=
  is_digit c || Ascii.eqb c "." || Ascii.eqb c "e"
  || Ascii.eqb c "+" || Ascii.eqb c "-".

Fixpoint zeros (n : nat) : string :=
  match n with
  | O => EmptyString
  | S n' => String "0" (zeros n')
  end.

Definition digit_char (n : Z) : ascii := ascii_of_N (Z.to_N (48 + n)).

(** A natural number below 1000 written with at least two digits, as in
    the exponent of [1e-05]. *)
Definition exponent_digits (n : Z) : string :=
  if n <? 100
  then String (digit_char (n / 10)) (String (digit_char (n mod 10)) EmptyString)
  else String (digit_char (n / 100))
         (String (digit_char (n / 10 mod 10))
            (String (digit_char (n mod 10)) EmptyString)).

Fixpoint take (n : nat) (s : string) : string :=
  match n, s with
  | S n', String c r => String c (take n' r)
  | _, _ => EmptyString
  end.

Fixpoint drop (n : nat) (s : string) : string :=
  match n, s with
  | S n', String _ r => drop n' r
  | _, _ => s
  end.

Definition with_sign (sgn : bool) (body : string) : string :=
  if sgn then String "-" body else body.

Definition signed (sgn : bool) (m : Z) : Z := if sgn then - m else m.

Definition float_repr (d : decimal) : string :=
  let ds := digits d in
  let n := slen ds in
  let body :=
    if (decpt d <=? -4) || (16 <? decpt d) then
      let e := decpt d - 1 in
      let fraction := if 1 <? n then String "." (drop 1 ds) else EmptyString in
      let sign := if e <? 0 then "-"%char else "+"%char in
      (take 1 ds ++ fraction
       ++ String "e" (String sign (exponent_digits (Z.abs e))))%string
    else if decpt d <=? 0 then
      ("0." ++ zeros (Z.to_nat (- decpt d)) ++ ds)%string
    else if decpt d <? n then
      (take (Z.to_nat (decpt d)) ds
       ++ String "." (drop (Z.to_nat (decpt d)) ds))%string
    else
      (ds ++ zeros (Z.to_nat (decpt d - n)) ++ ".0")%string in
  if neg d then String "-" body else body.

End FloatRepr.

(** ** The specification's wording *)

Module Spec.
Import Str Num.

(** Plausibility range of section 4.6. *)
Definition plausible (value : Q) (unit : string) : Prop :=
  if str_in unit Parsing.percent_units
  then (0 <= value /\ value <= 100)%Q \/ (value < 0 /\ Qabs value < 1 # 10)%Q
  else (0 <= value)%Q.

(** The decimal-placement table of section 4.3, step 5, for a non-trace
    string of digits: the row is chosen by the number of digits. *)
Definition digit_count_table (s : string) : Q :=
  let num := digits_value s in
  let n := of_int num in
  let count := slen s in
  if num =? 0 then 0%Q
  else if count =? 1 then n
  else if count =? 2 then
    if num mod 10 =? 0 then fdiv n 10
    else if num <? 30 then fdiv n 100
    else fdiv n 10
  else if count =? 3 then
    if num <? 10 then fdiv n 1000 else fdiv n 100
  else if count =? 4 then
    if num <? 1000 then fdiv n 10000 else fdiv n 1000
  else fdiv n (of_int (10 ^ (count - 1))).

(** How many of the element symbols occur in the cells of a grid. *)
Definition symbols_mentioned (table_data : list (list string)) : Z :=
  TableDetect.count_if
    (fun symbol => contains (join " " (map (join " ") table_data)) symbol)
    Config.ELEMENT_SYMBOLS.

End Spec.

(** ** [src/main.py]: the per-page pipeline

    The body of the page loop of [main] (lines 67-105) as a function of
    the recognised fragments of the page; logging is left out. *)

Module Main.
Import Parsing TableDetect.

Definition page_records (ocr_results : list fragment) : list record :=
  match ocr_results with
  | [] => []
  | _ :: _ =>
      let table_data := detect_table_regions ocr_results in
      if (length table_data <? 2)%nat then []
      else if is_chemical_composition_table table_data then
        let composition_data := parse_table_to_composition_data table_data in
        if (length composition_data <? 3)%nat
        then parse_table_simple_heuristic table_data
        else composition_data
      else []
  end.

(** [all_composition_data] after the page loop: extending with an empty
    list changes nothing, so the guard of line 94 is absorbed. *)
Definition all_composition_data (pages : list (list fragment)) : list record :=
  flat_map page_records pages.

End Main.

(** ** [src/matcert_processor.py]: the TOP / BOTTOM table *)

Module Matcert.
Import Str Parsing.

Record matcert_row := mkRow {
  Element : string;
  Unit : string;
  TOP : string;
  BOTTOM : string
}.

(** The column indices found so far: element, unit, top, bottom. *)
Record columns := mkColumns {
  element_idx : option nat;
  unit_idx : option nat;
  top_idx : option nat;
  bottom_idx : option nat
}.

(** One iteration of the header loop (lines 131-139). *)
Definition header_step (cols : columns) (ih : nat * string) : columns :=
  let (idx, header) := ih in
  if contains header "element" then
    mkColumns (Some idx) (unit_idx cols) (top_idx cols) (bottom_idx cols)
  else if contains header "unit" then
    mkColumns (element_idx cols) (Some idx) (top_idx cols) (bottom_idx cols)
  else if contains header "top" then
    mkColumns (element_idx cols) (unit_idx cols) (Some idx) (bottom_idx cols)
  else if contains header "bottom" then
    mkColumns (element_idx cols) (unit_idx cols) (top_idx cols) (Some idx)
  else cols.

Definition find_columns (headers : list string) : columns :=
  let headers_lower := map (fun h => strip (lower h)) headers in
  fold_left header_step (enumerate headers_lower)
            (mkColumns None None None None).

(** The body of the row loop (lines 147-160): the rows it appends. *)
Definition matcert_of_row (e : nat) (u : option nat) (t b : nat)
    (row : list string) : list matcert_row :=
  if (Nat.max (Nat.max (Nat.max e (default 0%nat u)) t) b <? length row)%nat then
    let element := if (e <? length row)%nat then strip (nth e row "") else "" in
    let unit :=
      match u with
      | Some ui => if (ui <? length row)%nat then strip (nth ui row "") else "wt.%"
      | None => "wt.%"
      end in
    let top_val := if (t <? length row)%nat then strip (nth t row "") else "" in
    let bottom_val := if (b <? length row)%nat then strip (nth b row "") else "" in
    if is_empty element then [] else [mkRow element unit top_val bottom_val]
  else [].

Definition parse_matcert_composition_table (table_data : Grid)
  : list matcert_row :=
  if (length table_data <? 2)%nat then []
  else
    let headers := nth 0 table_data [] in
    let cols := find_columns headers in
    match element_idx cols, top_idx cols, bottom_idx cols with
    | Some e, Some t, Some b =>
        flat_map (matcert_of_row e (unit_idx cols) t b) (List.tail table_data)
    | _, _, _ => []
    end.

(** A [str] seen as a sequence: its one-character strings.  The only
    caller (line 91) passes [tables[0]], one row of the grid, so that the
    "rows" of the table are the cells of that row and their "cells" are
    characters. *)
Fixpoint chars (s : string) : list string :=
  match s with
  | EmptyString => []
  | String c r => String c EmptyString :: chars r
  end.

(** The cells of a table row written for a record. *)
Definition cells_of (r : matcert_row) : list string :=
  [Element r; Unit r; TOP r; BOTTOM r].

End Matcert.

(** ** The interpreter's arithmetic as a parameter

    Where a property depends on how floats round, the code is read over
    an arbitrary arithmetic: the type of floats and the built-in
    operations that make or compare floats are the fields of a record,
    and the functions of [src/parsing.py] are written once for all of
    them.  What holds for every arithmetic holds for the binary floats of
    the interpreter, the instance [binary64], and for the exact rationals
    of the module [Parsing], the instance [rationals]. *)

Module Machine.
Import Str Re Num.

(** [of_decimal neg m e] is [float(text)] for a literal that writes the
    digits [m] scaled by [10 ** e], with a minus sign when [neg];
    [of_int n] is [float(n)] and [int_div n d] is [n / d] for two [int]s,
    [None] standing for [OverflowError]; [div_int x d] is [x / d] and
    [gt_int x n] is [x > n] for a float and an [int]; [total l] is
    [sum(l)]; [int_max_str_digits] is the longest digit string that
    [int()] converts, when there is a limit. *)
Record arithmetic := mkArithmetic {
  num : Type;
  of_decimal : bool -> Z -> Z -> num;
  of_int : Z -> option num;
  int_div : Z -> Z -> option num;
  div_int : num -> Z -> num;
  gt_int : num -> Z -> bool;
  total : list num -> num;
  int_max_str_digits : option Z
}.

(** What a call does: it returns a float, returns [None], or raises
    [OverflowError], which no handler of [src/parsing.py] catches. *)
Inductive outcome (T : Type) : Type :=
| Value (v : T)
| Unparseable
| Overflow.

Arguments Value {T} v.
Arguments Unparseable {T}.
Arguments Overflow {T}.

Definition computed {T} (o : option T) : outcome T :=
  match o with Some x => Value x | None => Overflow end.

Definition returned {T} (o : outcome T) : option T :=
  match o with Value x => Some x | _ => None end.

(** [int(s)] with the limit on the number of digits; [None] stands for
    [ValueError]. *)
Definition int_of_string_within (limit : option Z) (s : string) : option Z :=
  match int_of_string s, limit with
  | Some n, Some k =>
      if k <? slen (filter_chars is_digit s) then None else Some n
  | Some n, None => Some n
  | None, _ => None
  end.

(** The grammar of [Num.float_literal]: the sign, the digits and the
    decimal exponent that a literal writes. *)
Definition literal_parts (s : string) : option (bool * Z * Z) :=
  let (neg, s1) := take_sign s in
  let (ip, s2) := span is_digit s1 in
  let (fp, s3) :=
    match s2 with
    | String "." r => span is_digit r
    | _ => (EmptyString, s2)
    end in
  if is_empty ip && is_empty fp then None else
  match parse_exponent s3 with
  | None => None
  | Some e => Some (neg, digits_value (ip ++ fp), e - slen fp)
  end.

Definition float_parts (s : string) : option (bool * Z * Z) :=
  let s := c_strip s in
  if negb (underscores_ok None s) then None
  else literal_parts (filter_chars (fun c => negb (is_underscore c)) s).

Section Code.
Variable A : arithmetic.

(** [float(s)]; [None] stands for [ValueError]. *)
Definition float_of_string (s : string) : option (num A) :=
  match float_parts s with
  | Some (neg, m, e) => Some (of_decimal A neg m e)
  | None => None
  end.

Definition infer_decimal_placement (value_str : string)
    (is_trace_element : bool) : outcome (num A) :=
  let clean_str := sub_non_numeric value_str in
  if is_empty clean_str || String.eqb clean_str "-" then Unparseable else
  match int_of_string_within (int_max_str_digits A) clean_str with
  | None => Unparseable
  | Some n =>
      let over d := computed (int_div A n d) in
      if is_trace_element then
        if n <? 10 then over 1000
        else if n <? 100 then over 10000
        else if n <? 1000 then over 10000
        else over 1000000
      else if n =? 0 then Value (of_decimal A false 0 (-1))
      else if n <? 10 then computed (of_int A n)
      else if n <? 100 then
        if n mod 10 =? 0 then over 10
        else if n <? 30 then over 100
        else over 10
      else if n <? 1000 then
        if n <? 100 then
          if n <? 10 then over 1000 else over 1000
        else if n <? 200 then over 100
        else over 100
      else if n <? 10000 then
        if n <? 100 then over 10000
        else if n <? 1000 then over 10000
        else over 1000
      else over (10 ^ (slen clean_str - 1))
  end.

(** Lines 147-154 of [normalize_number]. *)
Definition infer_from (value : string) (is_trace : bool) : outcome (num A) :=
  let value := sub_non_numeric value in
  if is_empty value || String.eqb value "-" then Unparseable
  else infer_decimal_placement value is_trace.

Definition normalize_number (value : string) : outcome (num A) :=
  if is_empty value then Unparseable else
  let (is_trace, value) := Parsing.clean_token value in
  if has_char "." value then
    match float_of_string value with
    | Some x =>
        if gt_int A x 100 && negb is_trace then
          if gt_int A x 1000 then Value (div_int A x 1000)
          else Value (div_int A x 10)
        else Value x
    | None => infer_from (replace1 "." "" value) is_trace
    end
  else infer_from value is_trace.

Record record := mkRecord {
  element_symbol : string;
  value : num A;
  unit : string
}.

Definition set_value (item : record) (v : num A) : record :=
  mkRecord (element_symbol item) v (unit item).

(** Lines 377-389: the correction pass over the kept records. *)
Definition post_process (all_parsed_values : list record) : list record :=
  match all_parsed_values with
  | [] => []
  | _ :: _ =>
      let values_list := map value all_parsed_values in
      let avg_value :=
        div_int A (total A values_list) (Z.of_nat (length values_list)) in
      if gt_int A avg_value 50 then
        map (fun item => set_value item (div_int A (value item) 100))
            all_parsed_values
      else if gt_int A avg_value 20 then
        map (fun item =>
               if gt_int A (value item) 50
               then set_value item (div_int A (value item) 100)
               else item) all_parsed_values
      else all_parsed_values
  end.



End Code.

Arguments element_symbol {A} r.
Arguments value {A} r.
Arguments unit {A} r.

(** Exact arithmetic: the floats of the module [Parsing]. *)
Definition rationals : arithmetic :=
  {| num := Q;
     of_decimal := fun neg m e => scale10 (if neg then - m else m) e;
     of_int := fun n => Some (Num.of_int n);
     int_div := fun n d => Some (fdiv (Num.of_int n) (Num.of_int d));
     div_int := fun x d => fdiv x (Num.of_int d);
     gt_int := fun x n => fltb (Num.of_int n) x;
     total := Parsing.sum_values;
     int_max_str_digits := None |}.

(** A record of [Parsing] as a record over the exact arithmetic. *)
Definition lift (r : Parsing.record) : record rationals :=
  mkRecord rationals (Parsing.element_symbol r) (Parsing.value r)
           (Parsing.unit r).

(** The floats of the interpreter: IEEE 754 binary64, 53 bits of
    precision, every operation rounded to the nearest float, ties to
    even.  A float is a signed zero, an infinity, not-a-number, or
    [m * 2 ** e] with its sign. *)
Definition float64 : Type := SpecFloat.spec_float.

(** [float(n)] before the test for overflow: [n] rounded. *)
Definition round_int (n : Z) : float64 :=
  SpecFloat.binary_normalize 53 1024 n 0 false.

(** [n / d] for [d > 0] before the test for overflow: the quotient of the
    two integers, rounded once. *)
Definition round_ratio (n d : Z) : float64 :=
  match n, d with
  | Z0, Zpos _ => SpecFloat.S754_zero false
  | Zpos a, Zpos b =>
      SpecFloat.SFdiv 53 1024 (SpecFloat.S754_finite false a 0)
                      (SpecFloat.S754_finite false b 0)
  | Zneg a, Zpos b =>
      SpecFloat.SFdiv 53 1024 (SpecFloat.S754_finite true a 0)
                      (SpecFloat.S754_finite false b 0)
  | _, _ => SpecFloat.S754_nan
  end.

(** A result that is an infinity raises [OverflowError]. *)
Definition finite (x : float64) : option float64 :=
  match x with
  | SpecFloat.S754_infinity _ | SpecFloat.S754_nan => None
  | _ => Some x
  end.

(** [float()] on a decimal literal rounds its value once; a value too
    large is an infinity, one too small a zero. *)
Definition round_decimal (neg : bool) (m e : Z) : float64 :=
  let x := if 0 <=? e then round_int (m * 10 ^ e)
           else round_ratio m (10 ^ (- e)) in
  if neg then SpecFloat.SFopp x else x.

(** [sum] adds from left to right, starting from zero, as the
    interpreter does up to version 3.11; [int()] converts at most 4300
    digits, its default. *)
Definition binary64 : arithmetic :=
  {| num := float64;
     of_decimal := round_decimal;
     of_int := fun n => finite (round_int n);
     int_div := fun n d => finite (round_ratio n d);
     div_int := fun x d => SpecFloat.SFdiv 53 1024 x (round_int d);
     gt_int := fun x n => SpecFloat.SFltb (round_int n) x;
     total := fun l =>
       fold_left (SpecFloat.SFadd 53 1024) l (SpecFloat.S754_zero false);
     int_max_str_digits := Some 4300 |}.

End Machine.

(** ** Classes of text used in the statements *)

Module Text.
Import Str Parsing.

(** A record for a priority element, in the unit [u]. *)
Definition labelled (u : string) (r : record) : Prop :=
  In (element_symbol r) PRIORITY_ELEMENTS /\ unit r = u.

(** The numbers that the normaliser reads in a list of cells, in the
    order of the cells. *)
Definition parsed_values (cols : list string) : list Q :=
  flat_map (fun col => match normalize_number col with
                       | Some v => [v]
                       | None => []
                       end) cols.

Definition no_digit (c : ascii) : bool := negb (is_digit c).

(** [s.replace(',', '.')] seen character by character. *)
Definition comma_to_dot (c : ascii) : ascii :=
  if Ascii.eqb c "," then "."%char else c.

(** Text of ASCII characters, on which [str.lower] and [str.upper] map
    one character to one character. *)
Definition ascii_text (s : string) : bool :=
  Num.all_chars (fun c => (Z.of_N (code c) <? 128)) s.

(** A cell short enough for its number to have at most 15 significant
    digits: a float holds them all, and no conversion overflows. *)
Definition short_cell (s : string) : Prop := slen s <= 15.

(** The digits of a float's string form start with a non-zero digit,
    except for zero itself, written ["0"] with the point after it. *)
Definition normalised (d : FloatRepr.decimal) : Prop :=
  (FloatRepr.digits d = "0" /\ FloatRepr.decpt d = 1)
  \/ (exists c r, FloatRepr.digits d = String c r /\ c <> "0"%char).

End Text.

(** ** Loop invariants of the extractors *)

Module Loop.
Import Parsing.

Definition state : Type := list record * gset string.

(** A record that passed the plausibility test of line 369 (or 445). *)
Definition checked (r : record) : Prop :=
  is_valid_composition_value (value r) (unit r) = true.

(** The accumulator and the set of seen elements agree, no element is
    recorded twice, and every record passed the plausibility check. *)
Definition invariant (st : state) : Prop :=
  NoDup (map element_symbol (fst st))
  /\ (forall e, e ∈ snd st <-> In e (map element_symbol (fst st)))
  /\ Forall checked (fst st).

(** A loop step that either leaves the state alone or appends one checked
    record for an element not seen so far. *)
Definition guarded {X} (step : state -> X -> state) : Prop :=
  forall acc seen x,
    step (acc, seen) x = (acc, seen)
    \/ exists r, (element_symbol r ∉ seen) /\ checked r
         /\ step (acc, seen) x = ((acc ++ [r])%list, seen ∪ {[element_symbol r]}).

(** The accumulator only grows, and only by elements not yet seen. *)
Definition extends (st st' : state) : Prop :=
  exists extra, fst st' = (fst st ++ extra)%list
    /\ forall r, In r extra -> (element_symbol r ∉ snd st).

End Loop.

(** * Properties *)

Import Str Re Num Sort Parsing TableDetect FloatRepr Text.

(** ** Characters and strings *)

Section StringFacts.

Lemma lower_char_not_upper (c : ascii) : is_upper (lower_char c) = false.
Proof. destruct c as [[] [] [] [] [] [] [] []]; reflexivity. Qed.

Lemma has_char_lower_not_upper (c : ascii) (s : string) :
  has_char c (lower s) = true -> is_upper c = false.
Proof.
  induction s as [|d s IH]; simpl; [discriminate|].
  intros H. apply orb_true_iff in H as [H|H]; [|auto].
  apply Ascii.eqb_eq in H. subst c. apply lower_char_not_upper.
Qed.

Lemma startswith_head (s : string) (c : ascii) (p : string) :
  startswith s (String c p) = true -> has_char c s = true.
Proof.
  destruct s as [|d s]; simpl; [discriminate|].
  intros H. apply andb_true_iff in H as [H _]. now rewrite H.
Qed.

Lemma contains_head (s : string) (c : ascii) (p : string) :
  contains s (String c p) = true -> has_char c s = true.
Proof.
  induction s as [|d s IH]; intros H.
  - simpl in H. discriminate.
  - change (startswith (String d s) (String c p) || contains s (String c p) = true) in H.
    apply orb_true_iff in H as [H|H].
    + now apply startswith_head in H.
    + simpl. rewrite (IH H). apply orb_true_r.
Qed.

(** A text in lower case contains no word that starts with a capital. *)
Lemma lower_contains_capital (t : string) (c : ascii) (p : string) :
  is_upper c = true -> contains (lower t) (String c p) = false.
Proof.
  intros Hc. destruct (contains (lower t) (String c p)) eqn:E; [|reflexivity].
  apply contains_head, has_char_lower_not_upper in E. congruence.
Qed.

End StringFacts.

(** ** The table classifier *)

Section Classifier.

(** Every element symbol starts with a capital, and the classifier looks
    for it in lower-cased text: the count of element symbols is always 0. *)
Lemma element_matches_zero (table_data : list (list string)) :
  element_matches table_data = 0.
Proof.
  unfold element_matches, count_if, flat_text, Config.ELEMENT_SYMBOLS.
  cbn [List.filter].
  rewrite !lower_contains_capital by reflexivity. reflexivity.
Qed.

Lemma classifier_keywords_only (table_data : list (list string)) :
  is_chemical_composition_table table_data = (2 <=? keyword_matches table_data).
Proof.
  unfold is_chemical_composition_table.
  rewrite element_matches_zero. apply orb_false_r.
Qed.

(** C2.  The grid [["Al"; "V"; "Fe"]] mentions three of the eight element
    symbols and none of the keywords, yet the classifier answers false:
    the symbols are searched case-sensitively in text that has been
    lower-cased, so the element count is 0 where the cells mention 3. *)
Theorem C2_three_symbols_rejected :
  Spec.symbols_mentioned [["Al"; "V"; "Fe"]] = 3
  /\ keyword_matches [["Al"; "V"; "Fe"]] = 0
  /\ element_matches [["Al"; "V"; "Fe"]] = 0
  /\ is_chemical_composition_table [["Al"; "V"; "Fe"]] = false.
Proof. repeat split; vm_compute; reflexivity. Qed.

End Classifier.

(** ** Floats *)

Section FloatFacts.

Lemma fltb_lt (a b : Q) : fltb a b = true <-> (a < b)%Q.
Proof.
  unfold fltb. split.
  - intros H. apply Qnot_le_lt. intros Hle. apply Qle_bool_iff in Hle.
    rewrite Hle in H. discriminate.
  - intros H. destruct (Qle_bool b a) eqn:E; [|reflexivity].
    apply Qle_bool_iff in E. exfalso. eapply Qlt_not_le; eauto.
Qed.

Lemma fltb_ge (a b : Q) : fltb a b = false <-> (b <= a)%Q.
Proof.
  unfold fltb. rewrite negb_false_iff. apply Qle_bool_iff.
Qed.

Lemma fleb_le (a b : Q) : fleb a b = true <-> (a <= b)%Q.
Proof. apply Qle_bool_iff. Qed.

Lemma fdiv_100 (v : Q) : (fdiv v 100 == v * (1 # 100))%Q.
Proof. unfold fdiv. rewrite Qred_correct. reflexivity. Qed.

End FloatFacts.

(** ** The plausibility check *)

Section Plausibility.

(** The check of the code is the range of section 4.6. *)
Lemma is_valid_plausible (v : Q) (u : string) :
  is_valid_composition_value v u = true <-> Spec.plausible v u.
Proof.
  unfold is_valid_composition_value, Spec.plausible.
  destruct (str_in u percent_units).
  - destruct (fltb v 0) eqn:E.
    + apply fltb_lt in E. rewrite fltb_lt. split.
      * intros H. right. split; assumption.
      * intros [[H _]|[_ H]]; [|exact H]. exfalso. eapply Qlt_not_le; eauto.
    + apply fltb_ge in E. rewrite andb_true_iff, !fleb_le. split.
      * intros H. left. exact H.
      * intros [H|[H _]]; [exact H|]. exfalso. eapply Qlt_not_le; eauto.
  - apply fleb_le.
Qed.

(** Dividing by 100 keeps a value inside its plausibility range. *)
Lemma plausible_div_100 (v : Q) (u : string) :
  Spec.plausible v u -> Spec.plausible (fdiv v 100) u.
Proof.
  unfold Spec.plausible. destruct (str_in u percent_units).
  - intros [[H1 H2]|[H1 H2]].
    + left. rewrite fdiv_100. split; lra.
    + right. rewrite fdiv_100. rewrite Qabs_neg in H2 by lra.
      split; [lra|]. rewrite Qabs_neg by lra. lra.
  - intros H. rewrite fdiv_100. lra.
Qed.

Lemma checked_div_100 (r : record) :
  Loop.checked r -> Loop.checked (set_value r (fdiv (value r) 100)).
Proof.
  unfold Loop.checked. cbn [set_value value unit].
  rewrite !is_valid_plausible. apply plausible_div_100.
Qed.

(** Inside a percentage unit a checked value lies above -0.1 and is at
    most 100. *)
Lemma percent_bounds (v : Q) (u : string) :
  str_in u percent_units = true ->
  is_valid_composition_value v u = true ->
  (- (1 # 10) < v /\ v <= 100)%Q.
Proof.
  intros Hu. unfold is_valid_composition_value. rewrite Hu.
  destruct (fltb v 0) eqn:E.
  - apply fltb_lt in E. intros H%fltb_lt.
    rewrite Qabs_neg in H by lra. split; lra.
  - apply fltb_ge in E. intros [H1 H2]%andb_true_iff.
    apply fleb_le in H2. split; [|exact H2]. lra.
Qed.

End Plausibility.

(** ** Stable insertion sort *)

Section SortFacts.
Context {A K : Type} (lt : K -> K -> bool) (key : A -> K).

Lemma insert_by_perm (x : A) (l : list A) :
  Permutation (insert_by lt key x l) (x :: l).
Proof.
  induction l as [|y l IH]; cbn [insert_by]; [reflexivity|].
  destruct (lt (key y) (key x)); [|reflexivity].
  rewrite IH. apply perm_swap.
Qed.

Lemma sort_by_perm (l : list A) : Permutation (sort_by lt key l) l.
Proof.
  induction l as [|x l IH]; cbn [sort_by fold_right]; [reflexivity|].
  fold (sort_by lt key l). rewrite insert_by_perm. now constructor.
Qed.

End SortFacts.

(** ** The extraction loops *)

Section Loops.
Import Loop.

Lemma fold_left_preserves {S X} (P : S -> Prop) (step : S -> X -> S) (xs : list X) :
  (forall st x, P st -> P (step st x)) ->
  forall st, P st -> P (fold_left step xs st).
Proof.
  intros Hstep. induction xs as [|x xs IH]; intros st H; cbn; auto.
Qed.

Lemma invariant_init : invariant ([], ∅).
Proof.
  repeat split; cbn.
  - constructor.
  - intros H. set_solver.
  - intros [].
  - constructor.
Qed.

Lemma guarded_invariant {X} (step : state -> X -> state) :
  guarded step -> forall st x, invariant st -> invariant (step st x).
Proof.
  intros G [acc seen] x (Hnd & Hseen & Hval). cbn [fst snd] in *.
  destruct (G acc seen x) as [->|(r & Hfresh & Hr & ->)].
  - repeat split; cbn [fst snd]; auto; apply Hseen.
  - unfold invariant. cbn [fst snd]. rewrite List.map_app. cbn [map].
    split; [|split].
    + apply NoDup_app. repeat split; auto.
      * intros e He Hin. apply list_elem_of_In in Hin as [Heq|[]].
        subst e. apply Hfresh, Hseen. now apply list_elem_of_In.
      * apply NoDup_singleton.
    + intros e. rewrite in_app_iff, elem_of_union, elem_of_singleton, Hseen.
      cbn. intuition.
    + apply Forall_app. split; auto.
Qed.

Lemma extends_refl (st : state) : extends st st.
Proof. exists []. split; [now rewrite app_nil_r|intros r []]. Qed.

Lemma guarded_extends {X} (step : state -> X -> state) :
  guarded step -> forall st x, extends st (step st x) /\ snd st ⊆ snd (step st x).
Proof.
  intros G [acc seen] x.
  destruct (G acc seen x) as [->|(r & Hfresh & Hr & ->)].
  - split; [apply extends_refl|reflexivity].
  - split; [|cbn; set_solver].
    exists [r]. split; [reflexivity|]. intros r' [<-|[]]. exact Hfresh.
Qed.

Lemma extends_trans (st1 st2 st3 : state) :
  snd st1 ⊆ snd st2 -> extends st1 st2 -> extends st2 st3 -> extends st1 st3.
Proof.
  intros Hsub (e1 & H1 & F1) (e2 & H2 & F2).
  exists (e1 ++ e2)%list. split.
  - rewrite H2, H1. now rewrite app_assoc.
  - intros r [H|H]%in_app_iff; [auto|]. specialize (F2 r H). set_solver.
Qed.

Lemma fold_extends {X} (step : state -> X -> state) (xs : list X) :
  guarded step ->
  forall st, extends st (fold_left step xs st) /\ snd st ⊆ snd (fold_left step xs st).
Proof.
  intros G. induction xs as [|x xs IH]; intros st; cbn [fold_left].
  - split; [apply extends_refl|reflexivity].
  - destruct (guarded_extends step G st x) as [E1 S1].
    pose proof (IH (step st x)) as [E2 S2].
    split; [eapply extends_trans; eauto|etransitivity; eauto].
Qed.

Lemma fresh_unseen (seen : gset string) (e : string) :
  fresh seen (Some e) = true -> e ∉ seen.
Proof.
  cbn. intros [_ H]%andb_true_iff. now apply bool_decide_eq_true in H.
Qed.

Lemma row_step_guarded (u : string) (headers : list string) :
  guarded (row_step u headers).
Proof.
  intros acc seen row. unfold row_step.
  destruct (_ || _); [now left|].
  destruct (parse_row u headers seen row) as [[e|] [v|]]; try now left.
  destruct (fresh seen (Some e)) eqn:Hf; [|now left].
  destruct (is_valid_composition_value v u) eqn:Hv; [|now left].
  right. exists (mkRecord e v u). cbn [andb element_symbol].
  repeat split; [now apply fresh_unseen|exact Hv].
Qed.

Lemma cell_step_guarded (u : string) : guarded (cell_step u).
Proof.
  intros acc seen cell. unfold cell_step.
  destruct (is_empty (strip cell)); [now left|].
  destruct (extract_element_symbol (strip cell)) as [e|] eqn:He;
    [|now left].
  destruct (fresh seen (Some e)) eqn:Hf; [|now left].
  destruct (search_number_range (strip cell)) as [num_str|]; [|now left].
  match goal with |- context [match ?val with Some _ => _ | None => _ end = _] =>
    destruct val as [v|] end; [|now left].
  destruct (is_valid_composition_value v u) eqn:Hv; [|now left].
  right. exists (mkRecord e v u). cbn [element_symbol].
  repeat split; [now apply fresh_unseen|exact Hv].
Qed.

(** The state reached by the row loop of the primary extractor. *)
Lemma row_loop_invariant (u : string) (headers : list string) (rows : Grid) :
  invariant (fold_left (row_step u headers) rows ([], ∅)).
Proof.
  apply fold_left_preserves; [|apply invariant_init].
  intros st row. apply guarded_invariant, row_step_guarded.
Qed.

(** The state reached by the cell loops of the fallback extractor. *)
Lemma cell_loop_invariant (u : string) (table_data : Grid) :
  invariant (fold_left (fun st row => fold_left (cell_step u) row st)
               table_data ([], ∅)).
Proof.
  apply fold_left_preserves; [|apply invariant_init].
  intros st row. apply fold_left_preserves.
  intros st' cell. apply guarded_invariant, cell_step_guarded.
Qed.

Lemma kept_records_invariant (table_data : Grid) :
  NoDup (map element_symbol (kept_records table_data))
  /\ Forall checked (kept_records table_data).
Proof.
  unfold kept_records.
  destruct (row_loop_invariant
    (extract_unit (lower (join " " (nth (find_header 0 (firstn 3 table_data)) table_data []))))
    (nth (find_header 0 (firstn 3 table_data)) table_data [])
    (skipn (S (find_header 0 (firstn 3 table_data))) table_data))
    as (H1 & _ & H3).
  split; assumption.
Qed.

Lemma scanned_records_invariant (table_data : Grid) :
  NoDup (map element_symbol (scanned_records table_data))
  /\ Forall checked (scanned_records table_data).
Proof.
  unfold scanned_records.
  destruct (cell_loop_invariant
    (extract_unit (lower (join " " (map (join " ") table_data)))) table_data)
    as (H1 & _ & H3).
  split; assumption.
Qed.

End Loops.

(** ** Correction pass and final order *)

Section PostProcess.
Import Loop.

Lemma post_process_symbols (l : list record) :
  map element_symbol (post_process l) = map element_symbol l.
Proof.
  unfold post_process. destruct l as [|r l]; [reflexivity|].
  set (items := r :: l).
  destruct (fltb 50 _); [|destruct (fltb 20 _)]; [| |reflexivity].
  - rewrite map_map. reflexivity.
  - rewrite map_map. apply map_ext. intros x.
    destruct (fltb 50 (value x)); reflexivity.
Qed.

Lemma post_process_checked (l : list record) :
  Forall checked l -> Forall checked (post_process l).
Proof.
  intros H. unfold post_process. destruct l as [|r l]; [constructor|].
  set (items := r :: l) in *.
  destruct (fltb 50 _); [|destruct (fltb 20 _)]; [| |exact H].
  - apply List.Forall_map. eapply List.Forall_impl; [|exact H].
    intros x. apply checked_div_100.
  - apply List.Forall_map. eapply List.Forall_impl; [|exact H].
    intros x Hx. cbn. destruct (fltb 50 (value x)); [|exact Hx].
    now apply checked_div_100.
Qed.

Lemma sort_by_priority_perm (l : list record) :
  Permutation (sort_by_priority l) l.
Proof. apply sort_by_perm. Qed.

End PostProcess.

(** ** The composition extractor and the fallback extractor *)

Section Extractor.
Import Loop.


(** With at least two rows, the output of the extractor is the list of
    kept records passed through the correction pass and then sorted. *)
Lemma extractor_pass (table_data : Grid) :
  (2 <= length table_data)%nat ->
  parse_table_to_composition_data table_data
  = sort_by_priority (post_process (kept_records table_data)).
Proof.
  intros Hlen. unfold parse_table_to_composition_data.
  destruct (length table_data <? 2)%nat eqn:E; [|reflexivity].
  apply Nat.ltb_lt in E. lia.
Qed.

(** The correction pass of [Parsing] is the pass of [Machine] over the
    exact arithmetic. *)
Lemma post_process_exact (l : list record) :
  map Machine.lift (post_process l)
  = Machine.post_process Machine.rationals (map Machine.lift l).
Proof.
  destruct l as [|r l]; [reflexivity|].
  unfold post_process, Machine.post_process.
  set (items := r :: l).
  change (map Machine.lift items)
    with (Machine.lift r :: map Machine.lift l) at 1.
  cbv zeta. fold items.
  assert (Hv : map Machine.value (map Machine.lift items) = map value items)
    by (rewrite map_map; reflexivity).
  rewrite Hv.
  change (Machine.div_int Machine.rationals
            (Machine.total Machine.rationals (map value items))
            (Z.of_nat (length (map value items))))
    with (mean (map value items)).
  change (Machine.gt_int Machine.rationals (mean (map value items)) 50)
    with (fltb 50 (mean (map value items))).
  change (Machine.gt_int Machine.rationals (mean (map value items)) 20)
    with (fltb 20 (mean (map value items))).
  destruct (fltb 50 _); [|destruct (fltb 20 _)]; [| |reflexivity].
  - rewrite !map_map. reflexivity.
  - rewrite !map_map. apply map_ext. intros x.
    change (Machine.gt_int Machine.rationals (Machine.value (Machine.lift x)) 50)
      with (fltb 50 (value x)).
    destruct (fltb 50 (value x)); reflexivity.
Qed.





(** C6.  Every record emitted by the composition extractor and by the
    fallback extractor lies in the plausibility range of its unit: within
    0 and 100, or negative with magnitude below 0.1, for a percentage
    unit, and non-negative for another unit.  This is the final output,
    after the mean-based correction. *)
Theorem C6_emitted_values_plausible (table_data : Grid) :
  Forall (fun r => Spec.plausible (value r) (unit r))
    (parse_table_to_composition_data table_data)
  /\ Forall (fun r => Spec.plausible (value r) (unit r))
       (parse_table_simple_heuristic table_data).
Proof.
  split.
  - unfold parse_table_to_composition_data.
    destruct (length table_data <? 2)%nat; [constructor|].
    eapply Permutation_Forall; [symmetry; apply sort_by_priority_perm|].
    eapply List.Forall_impl;
      [|apply post_process_checked, kept_records_invariant].
    intros r. apply is_valid_plausible.
  - unfold parse_table_simple_heuristic.
    eapply Permutation_Forall; [symmetry; apply sort_by_priority_perm|].
    eapply List.Forall_impl; [|apply scanned_records_invariant].
    intros r. apply is_valid_plausible.
Qed.

(** C7.  Neither extractor emits two records with the same element
    symbol; and in both loops the records kept so far stay as they are
    whatever follows, later additions being for elements not seen before:
    the first record found for an element wins. *)
Theorem C7_one_record_per_element (table_data : Grid) :
  NoDup (map element_symbol (parse_table_to_composition_data table_data))
  /\ NoDup (map element_symbol (parse_table_simple_heuristic table_data))
  /\ (forall u headers rows st,
        extends st (fold_left (row_step u headers) rows st))
  /\ (forall u cells st,
        extends st (fold_left (cell_step u) cells st)).
Proof.
  split; [|split; [|split]].
  - unfold parse_table_to_composition_data.
    destruct (length table_data <? 2)%nat; [constructor|].
    rewrite (Permutation_map element_symbol (sort_by_priority_perm _)).
    rewrite post_process_symbols. apply kept_records_invariant.
  - unfold parse_table_simple_heuristic.
    rewrite (Permutation_map element_symbol (sort_by_priority_perm _)).
    apply scanned_records_invariant.
  - intros u headers rows st. apply fold_extends, row_step_guarded.
  - intros u cells st. apply fold_extends, cell_step_guarded.
Qed.

(** C10.  A grid with fewer than two rows yields no record, whatever its
    cells hold. *)
Theorem C10_short_grid_empty (table_data : Grid) :
  (length table_data < 2)%nat ->
  parse_table_to_composition_data table_data = [].
Proof.
  intros H. unfold parse_table_to_composition_data.
  apply Nat.ltb_lt in H. now rewrite H.
Qed.

Lemma C10_witness :
  parse_table_to_composition_data [["Al"; "6.5"]] = [].
Proof. apply C10_short_grid_empty. simpl. lia. Defined.

End Extractor.

(** ** The row / column reconstructor *)

Section SortedFacts.
Context {A : Type} (key : A -> Z).

Lemma insert_by_sorted (x : A) (l : list A) :
  StronglySorted (key_le key) l ->
  StronglySorted (key_le key) (insert_by Z.ltb key x l).
Proof.
  induction l as [|y l IH]; intros H; cbn [insert_by].
  - constructor; constructor.
  - inversion H as [|? ? Hl Hy]; subst.
    destruct (key y <? key x) eqn:E.
    + apply Z.ltb_lt in E. constructor; [auto|].
      eapply Permutation_Forall; [symmetry; apply insert_by_perm|].
      constructor; [unfold key_le; lia|exact Hy].
    + apply Z.ltb_ge in E. constructor; [exact H|].
      constructor; [exact E|].
      eapply List.Forall_impl; [|exact Hy]. unfold key_le. intros a Ha. lia.
Qed.

Lemma sort_by_sorted (l : list A) :
  StronglySorted (key_le key) (sort_by Z.ltb key l).
Proof.
  induction l as [|x l IH]; cbn [sort_by fold_right]; [constructor|].
  now apply insert_by_sorted.
Qed.

End SortedFacts.

Section Reconstructor.

Lemma sorted_le_lt (l : list Z) :
  StronglySorted Z.le l -> NoDup l -> StronglySorted Z.lt l.
Proof.
  induction 1 as [|x l Hs IH Hx]; intros Hnd; [constructor|].
  apply NoDup_cons in Hnd as [Hnin Hnd].
  constructor; [auto|].
  rewrite Forall_forall in *. intros y Hy.
  specialize (Hx y Hy).
  assert (x <> y) by (intros ->; apply Hnin; now apply list_elem_of_In).
  lia.
Qed.

Lemma sorted_map_key {A} (key : A -> Z) (l : list A) :
  StronglySorted (key_le key) l -> StronglySorted Z.le (map key l).
Proof.
  induction 1 as [|x l Hs IH Hx]; cbn; constructor; [exact IH|].
  apply List.Forall_map. exact Hx.
Qed.

Lemma append_to_keys (k : Z) (item : fragment) (rows : list (Z * list fragment)) :
  forall x, In x (map fst (append_to k item rows)) -> x = k \/ In x (map fst rows).
Proof.
  induction rows as [|[k' items] rest IH]; intros x; cbn [append_to].
  - cbn. intuition.
  - destruct (k =? k'); cbn; [intuition|].
    intros [H|H]; [auto|]. destruct (IH x H); auto.
Qed.

Lemma append_to_NoDup (k : Z) (item : fragment) (rows : list (Z * list fragment)) :
  NoDup (map fst rows) -> NoDup (map fst (append_to k item rows)).
Proof.
  induction rows as [|[k' items] rest IH]; intros H; cbn [append_to].
  - cbn. apply NoDup_singleton.
  - destruct (k =? k') eqn:E; [exact H|].
    apply Z.eqb_neq in E. cbn in *.
    apply NoDup_cons in H as [Hnin Hnd].
    apply NoDup_cons. split; [|auto].
    intros Hin%list_elem_of_In. apply append_to_keys in Hin as [->|Hin].
    + now apply E.
    + apply Hnin. now apply list_elem_of_In.
Qed.

Lemma append_to_nonempty (k : Z) (item : fragment) (rows : list (Z * list fragment)) :
  Forall (fun row => snd row <> []) rows ->
  Forall (fun row => snd row <> []) (append_to k item rows).
Proof.
  induction rows as [|[k' items] rest IH]; intros H; cbn [append_to].
  - constructor; [discriminate|constructor].
  - inversion H; subst. destruct (k =? k').
    + constructor; [|assumption]. cbn. now destruct items.
    + constructor; auto.
Qed.

(** The row dictionary has distinct keys and no empty row. *)
Lemma group_rows_wf (ocr_results : list fragment) :
  NoDup (map fst (group_rows ocr_results))
  /\ Forall (fun row => snd row <> []) (group_rows ocr_results).
Proof.
  unfold group_rows.
  apply (fold_left_preserves
           (fun rows => NoDup (map fst rows) /\ Forall (fun row => snd row <> []) rows)).
  - intros rows item [H1 H2]. unfold assign_row.
    split; [now apply append_to_NoDup|now apply append_to_nonempty].
  - split; [apply NoDup_nil_2|constructor].
Qed.

Lemma append_last_nonempty (row_text : list string) (t : string) :
  row_text <> [] -> append_last row_text t <> [].
Proof.
  destruct row_text as [|c [|d rest]]; cbn; congruence.
Qed.

Lemma merge_cells_nonempty (items : list fragment) :
  forall prev row_text,
    row_text <> [] -> merge_cells prev row_text items <> [].
Proof.
  induction items as [|item rest IH]; intros prev row_text H; cbn [merge_cells];
    [exact H|].
  apply IH. destruct prev as [p|].
  - destruct (_ <? _); [now apply append_last_nonempty|].
    now destruct row_text.
  - now destruct row_text.
Qed.

Lemma row_cells_nonempty (items : list fragment) :
  items <> [] -> row_cells items <> [].
Proof.
  intros H. unfold row_cells.
  destruct (sorted_items items) as [|x l] eqn:E.
  - exfalso. apply H. apply Permutation_nil.
    rewrite <- E. apply sort_by_perm.
  - cbn [merge_cells]. now apply merge_cells_nonempty.
Qed.

Lemma append_cons (c : ascii) (a b : string) :
  (String c a ++ b)%string = String c (a ++ b).
Proof. reflexivity. Qed.

Lemma append_empty_l (s : string) : ("" ++ s)%string = s.
Proof. reflexivity. Qed.

Lemma append_empty_r (s : string) : (s ++ "")%string = s.
Proof.
  induction s as [|c s IH]; [reflexivity|]. now rewrite append_cons, IH.
Qed.

Lemma append_assoc (a b c : string) :
  ((a ++ b) ++ c)%string = (a ++ b ++ c)%string.
Proof.
  induction a as [|x a IH]; [reflexivity|]. now rewrite !append_cons, IH.
Qed.

Lemma join_snoc (l : list string) (t : string) :
  join "" (l ++ [t]) = (join "" l ++ t)%string.
Proof.
  induction l as [|c [|d rest] IH]; [reflexivity|reflexivity|].
  change (join "" ((c :: d :: rest) ++ [t]))
    with (c ++ "" ++ join "" ((d :: rest) ++ [t]))%string.
  rewrite IH. change (join "" (c :: d :: rest))
    with (c ++ "" ++ join "" (d :: rest))%string.
  now rewrite !append_empty_l, append_assoc.
Qed.

Lemma join_append_last (l : list string) (t : string) :
  l <> [] -> join "" (append_last l t) = (join "" l ++ t)%string.
Proof.
  induction l as [|c [|d rest] IH]; intros H; [congruence|reflexivity|].
  change (append_last (c :: d :: rest) t) with (c :: append_last (d :: rest) t).
  assert (Hne : append_last (d :: rest) t <> []) by now apply append_last_nonempty.
  destruct (append_last (d :: rest) t) as [|x xs] eqn:E; [congruence|].
  change (join "" (c :: x :: xs)) with (c ++ "" ++ join "" (x :: xs))%string.
  rewrite IH by discriminate. change (join "" (c :: d :: rest))
    with (c ++ "" ++ join "" (d :: rest))%string.
  now rewrite !append_empty_l, append_assoc.
Qed.

(** Merging never reorders or loses text: the cells of a row, read
    together, are the fragment texts in the order they were scanned. *)
Lemma merge_cells_text (items : list fragment) :
  forall prev row_text,
    (prev <> None -> row_text <> []) ->
    join "" (merge_cells prev row_text items)
    = (join "" row_text ++ join "" (map text items))%string.
Proof.
  induction items as [|item rest IH]; intros prev row_text H; cbn [merge_cells map].
  - cbn. now rewrite append_empty_r.
  - rewrite IH.
    + assert (Hj : join "" (text item :: map text rest)
                   = (text item ++ join "" (map text rest))%string).
      { destruct (map text rest); cbn; [now rewrite append_empty_r|reflexivity]. }
      rewrite Hj, <- append_assoc. f_equal.
      destruct prev as [p|]; [destruct (_ <? _)|];
        [apply join_append_last; apply H; discriminate
        |apply join_snoc|apply join_snoc].
    + intros _. destruct prev as [p|]; [destruct (_ <? _)|].
      * apply append_last_nonempty, H. discriminate.
      * now destruct row_text.
      * now destruct row_text.
Qed.

(** No row is dropped at line 68: every row has a cell. *)
Lemma no_empty_row (rows : list (Z * list fragment)) :
  Forall (fun row => snd row <> []) rows ->
  List.filter (fun row_text => match row_text with [] => false | _ => true end)
    (map (fun '(row_y, items) => row_cells items) rows)
  = map (fun row => merge_cells None [] (sorted_items (snd row))) rows.
Proof.
  induction 1 as [|[y items] rows Hitems _ IH]; [reflexivity|].
  cbn [map List.filter snd]. fold (row_cells items).
  pose proof (row_cells_nonempty items Hitems) as Hc.
  destruct (row_cells items) as [|c cs] eqn:E; [congruence|].
  f_equal. exact IH.
Qed.

(** C8.  Empty input gives the empty grid.  The rows of the grid are built
    from the row dictionary sorted by strictly ascending anchor; the cells
    of a row are built by scanning its fragments in ascending order of
    their left coordinate, and read left to right they carry the fragment
    texts in that order. *)
Theorem C8_grid_order (ocr_results : list fragment) :
  detect_table_regions [] = []
  /\ StronglySorted Z.lt (map fst (sorted_rows ocr_results))
  /\ Permutation (sorted_rows ocr_results) (group_rows ocr_results)
  /\ detect_table_regions ocr_results
     = map (fun row => merge_cells None [] (sorted_items (snd row)))
           (sorted_rows ocr_results)
  /\ (forall items,
        StronglySorted (fun a b => left a <= left b) (sorted_items items)
        /\ Permutation (sorted_items items) items
        /\ join "" (merge_cells None [] (sorted_items items))
           = join "" (map text (sorted_items items))).
Proof.
  destruct (group_rows_wf ocr_results) as [Hnd Hne].
  assert (Hperm : Permutation (sorted_rows ocr_results) (group_rows ocr_results))
    by apply sort_by_perm.
  split; [reflexivity|]. split; [|split; [exact Hperm|split]].
  - apply sorted_le_lt.
    + apply sorted_map_key, sort_by_sorted.
    + now rewrite (Permutation_map fst Hperm).
  - assert (Hne' : Forall (fun row => snd row <> []) (sorted_rows ocr_results))
      by (eapply Permutation_Forall; [symmetry; exact Hperm|exact Hne]).
    unfold detect_table_regions.
    destruct ocr_results as [|f fs]; [reflexivity|].
    now apply no_empty_row.
  - intros items. split; [apply (sort_by_sorted left)|].
    split; [apply sort_by_perm|].
    rewrite merge_cells_text by congruence. reflexivity.
Qed.

End Reconstructor.

(** ** Text made of digits, dots, signs and [e] *)

Section PlainText.

Ltac by_cases c :=
  destruct c as [[] [] [] [] [] [] [] []]; vm_compute; intros;
  repeat split; congruence.

Lemma plain_not_space (c : ascii) : plain_char c = true -> is_space c = false.
Proof. by_cases c. Qed.

Lemma plain_not_c_space (c : ascii) : plain_char c = true -> is_c_space c = false.
Proof. by_cases c. Qed.

Lemma plain_not_underscore (c : ascii) :
  plain_char c = true -> is_underscore c = false.
Proof. by_cases c. Qed.

Lemma plain_not_comma (c : ascii) : plain_char c = true -> Ascii.eqb c "," = false.
Proof. by_cases c. Qed.

Lemma plain_not_percent (c : ascii) : plain_char c = true -> Ascii.eqb c "%" = false.
Proof. by_cases c. Qed.

Lemma plain_not_less (c : ascii) : plain_char c = true -> Ascii.eqb "<" c = false.
Proof. by_cases c. Qed.

Lemma digit_plain (c : ascii) : is_digit c = true -> plain_char c = true.
Proof. unfold plain_char. now intros ->. Qed.

Lemma digit_not_sign (c : ascii) :
  is_digit c = true -> Ascii.eqb c "-" = false /\ Ascii.eqb c "+" = false.
Proof. by_cases c. Qed.

Lemma all_chars_impl (p q : ascii -> bool) (s : string) :
  (forall c, p c = true -> q c = true) ->
  all_chars p s = true -> all_chars q s = true.
Proof.
  intros H. induction s as [|c s IH]; cbn; [reflexivity|].
  intros [Hc Hs]%andb_true_iff. rewrite (H c Hc). cbn. auto.
Qed.

Lemma all_chars_app (p : ascii -> bool) (a b : string) :
  all_chars p (a ++ b) = all_chars p a && all_chars p b.
Proof.
  induction a as [|c a IH]; [reflexivity|].
  rewrite append_cons. cbn. rewrite IH. now rewrite andb_assoc.
Qed.

Lemma lstrip_none (p : ascii -> bool) (s : string) :
  all_chars (fun c => negb (p c)) s = true -> lstrip_by p s = s.
Proof.
  destruct s as [|c s]; cbn; [reflexivity|].
  intros [Hc _]%andb_true_iff. apply negb_true_iff in Hc. now rewrite Hc.
Qed.

Lemma rstrip_none (p : ascii -> bool) (s : string) :
  all_chars (fun c => negb (p c)) s = true -> rstrip_by p s = s.
Proof.
  induction s as [|c s IH]; cbn; [reflexivity|].
  intros [Hc Hs]%andb_true_iff. apply negb_true_iff in Hc.
  rewrite Hc, (IH Hs). reflexivity.
Qed.

Lemma has_char_none (q : ascii -> bool) (c : ascii) (s : string) :
  q c = false -> all_chars q s = true -> has_char c s = false.
Proof.
  intros Hc. induction s as [|d s IH]; cbn; [reflexivity|].
  intros [Hd Hs]%andb_true_iff. rewrite (IH Hs), orb_false_r.
  destruct (Ascii.eqb c d) eqn:E; [|reflexivity].
  apply Ascii.eqb_eq in E. congruence.
Qed.

Lemma replace1_none (old : ascii) (new s : string) :
  has_char old s = false -> replace1 old new s = s.
Proof.
  induction s as [|c s IH]; cbn; [reflexivity|].
  intros [Hc Hs]%orb_false_iff. rewrite Ascii.eqb_sym, Hc. now rewrite IH.
Qed.

Lemma filter_chars_all (p : ascii -> bool) (s : string) :
  all_chars p s = true -> filter_chars p s = s.
Proof.
  induction s as [|c s IH]; cbn; [reflexivity|].
  intros [Hc Hs]%andb_true_iff. now rewrite Hc, IH.
Qed.

(** Without white space there is no gap between digits to close. *)
Lemma sub_gap_none (s : string) :
  all_chars (fun c => negb (is_space c)) s = true ->
  sub_gap None s = s /\ sub_gap (Some []) s = s.
Proof.
  induction s as [|c s IH]; cbn; [split; reflexivity|].
  intros [Hc Hs]%andb_true_iff. apply negb_true_iff in Hc.
  destruct (IH Hs) as [IH1 IH2]. rewrite Hc.
  destruct (is_digit c); cbn; rewrite ?IH1, ?IH2; split; reflexivity.
Qed.

Lemma underscores_ok_none (s : string) :
  all_chars (fun c => negb (is_underscore c)) s = true ->
  forall prev, match prev with Some p => is_underscore p = false | None => True end ->
  underscores_ok prev s = true.
Proof.
  induction s as [|c s IH]; intros H prev Hp.
  - cbn. destruct prev as [p|]; [now rewrite Hp|reflexivity].
  - cbn in H. apply andb_true_iff in H as [Hc Hs].
    apply negb_true_iff in Hc. cbn. rewrite Hc.
    rewrite (IH Hs (Some c) Hc), andb_true_r.
    destruct prev as [p|]; [now rewrite Hp|reflexivity].
Qed.

(** Cleaning leaves plain text alone. *)
Lemma clean_token_plain (s : string) :
  all_chars plain_char s = true -> clean_token s = (false, s).
Proof.
  intros H. unfold clean_token.
  assert (Hsp : all_chars (fun c => negb (is_space c)) s = true).
  { eapply all_chars_impl; [|exact H]. intros c Hc.
    now rewrite (plain_not_space c Hc). }
  assert (Hstrip : strip s = s).
  { unfold strip. now rewrite lstrip_none, rstrip_none. }
  rewrite Hstrip.
  assert (Hlt : startswith s "<" = false).
  { destruct s as [|c s]; [reflexivity|]. cbn [all_chars] in H.
    apply andb_true_iff in H as [Hc _].
    change (startswith (String c s) "<") with (Ascii.eqb "<" c && startswith s "").
    now rewrite (plain_not_less c Hc). }
  rewrite Hlt.
  rewrite (replace1_none "," "." s)
    by (apply (has_char_none plain_char); [reflexivity|exact H]).
  rewrite (replace1_none "%" "" s)
    by (apply (has_char_none plain_char); [reflexivity|exact H]).
  unfold sub_digit_gaps. now rewrite (proj1 (sub_gap_none s Hsp)).
Qed.

(** [float()] on plain text is the reading of the literal. *)
Lemma float_of_string_plain (s : string) :
  all_chars plain_char s = true -> float_of_string s = float_literal s.
Proof.
  intros H. unfold float_of_string.
  assert (Hsp : all_chars (fun c => negb (is_c_space c)) s = true).
  { eapply all_chars_impl; [|exact H]. intros c Hc.
    now rewrite (plain_not_c_space c Hc). }
  assert (Hus : all_chars (fun c => negb (is_underscore c)) s = true).
  { eapply all_chars_impl; [|exact H]. intros c Hc.
    now rewrite (plain_not_underscore c Hc). }
  unfold c_strip. rewrite lstrip_none, rstrip_none by assumption.
  rewrite (underscores_ok_none s Hus None I). cbn [negb].
  now rewrite filter_chars_all.
Qed.

End PlainText.

(** ** Reading digits *)

Section Digits.

Lemma has_char_middle (c : ascii) (a b : string) :
  has_char c (a ++ String c b) = true.
Proof.
  induction a as [|d a IH].
  - rewrite append_empty_l. cbn. now rewrite Ascii.eqb_refl.
  - rewrite append_cons. cbn [has_char]. rewrite IH. apply orb_true_r.
Qed.

Lemma slen_cons (c : ascii) (s : string) : slen (String c s) = 1 + slen s.
Proof. unfold slen. cbn [String.length]. lia. Qed.

Lemma slen_app (a b : string) : slen (a ++ b) = slen a + slen b.
Proof.
  induction a as [|c a IH]; [reflexivity|].
  rewrite append_cons, !slen_cons, IH. lia.
Qed.

Lemma slen_nonneg (s : string) : 0 <= slen s.
Proof. unfold slen. lia. Qed.

Lemma span_digits_app (a b : string) :
  all_chars is_digit a = true ->
  match b with EmptyString => True | String c _ => is_digit c = false end ->
  span is_digit (a ++ b) = (a, b).
Proof.
  intros Ha Hb. induction a as [|c a IH].
  - rewrite append_empty_l. destruct b as [|c b]; [reflexivity|].
    cbn [span]. now rewrite Hb.
  - cbn [all_chars] in Ha. apply andb_true_iff in Ha as [Hc Ha].
    rewrite append_cons. cbn [span]. now rewrite Hc, (IH Ha).
Qed.

Lemma digits_acc_app (a b : string) :
  forall acc, digits_acc acc (a ++ b) = digits_acc (digits_acc acc a) b.
Proof.
  induction a as [|c a IH]; intros acc; [reflexivity|].
  rewrite append_cons. cbn [digits_acc]. apply IH.
Qed.

Lemma digits_acc_zeros (k : nat) :
  forall acc, digits_acc acc (zeros k) = acc * 10 ^ Z.of_nat k.
Proof.
  induction k as [|k IH]; intros acc.
  - cbn. lia.
  - cbn [zeros digits_acc]. rewrite IH.
    change (digit_val "0") with 0.
    rewrite Nat2Z.inj_succ, Z.pow_succ_r by lia. lia.
Qed.

Lemma all_chars_zeros (k : nat) : all_chars is_digit (zeros k) = true.
Proof. induction k; cbn; auto. Qed.

Lemma slen_zeros (k : nat) : slen (zeros k) = Z.of_nat k.
Proof.
  induction k as [|k IH]; [reflexivity|].
  cbn [zeros]. rewrite slen_cons, IH. lia.
Qed.

Lemma take_drop (n : nat) (s : string) : (take n s ++ drop n s)%string = s.
Proof.
  revert s. induction n as [|n IH]; intros [|c s]; try reflexivity.
  cbn [take drop]. now rewrite append_cons, IH.
Qed.

Lemma all_chars_take (p : ascii -> bool) (n : nat) (s : string) :
  all_chars p s = true -> all_chars p (take n s) = true.
Proof.
  revert s. induction n as [|n IH]; intros [|c s]; try reflexivity.
  cbn. intros [Hc Hs]%andb_true_iff. now rewrite Hc, IH.
Qed.

Lemma all_chars_drop (p : ascii -> bool) (n : nat) (s : string) :
  all_chars p s = true -> all_chars p (drop n s) = true.
Proof.
  revert s. induction n as [|n IH]; intros [|c s]; try (intros; assumption).
  cbn. intros [Hc Hs]%andb_true_iff. now apply IH.
Qed.

Lemma slen_take (n : nat) (s : string) :
  Z.of_nat n <= slen s -> slen (take n s) = Z.of_nat n.
Proof.
  revert s. induction n as [|n IH]; intros [|c s]; try reflexivity.
  - unfold slen. cbn. lia.
  - rewrite slen_cons. intros H. cbn [take]. rewrite slen_cons, IH; lia.
Qed.

Lemma slen_drop (n : nat) (s : string) :
  Z.of_nat n <= slen s -> slen (drop n s) = slen s - Z.of_nat n.
Proof.
  intros H. pose proof (slen_app (take n s) (drop n s)) as E.
  rewrite take_drop, slen_take in E by assumption. lia.
Qed.

Lemma take_nonempty (n : nat) (s : string) :
  (0 < n)%nat -> s <> "" -> take n s <> "".
Proof. destruct n, s; cbn; intros; congruence || lia. Qed.

Lemma digit_char_val (k : Z) :
  0 <= k <= 9 -> is_digit (digit_char k) = true /\ digit_val (digit_char k) = k.
Proof.
  intros H.
  assert (k = 0 \/ k = 1 \/ k = 2 \/ k = 3 \/ k = 4 \/ k = 5 \/ k = 6
          \/ k = 7 \/ k = 8 \/ k = 9) as Hk by lia.
  repeat (destruct Hk as [->|Hk]; [split; reflexivity|]).
  subst k. split; reflexivity.
Qed.

Lemma exponent_digits_value (n : Z) :
  0 <= n < 1000 ->
  all_chars is_digit (exponent_digits n) = true
  /\ exponent_digits n <> ""
  /\ digits_value (exponent_digits n) = n.
Proof.
  intros H. unfold exponent_digits.
  destruct (n <? 100) eqn:E.
  - apply Z.ltb_lt in E.
    destruct (digit_char_val (n / 10)) as [A1 A2];
      [Z.to_euclidean_division_equations; lia|].
    destruct (digit_char_val (n mod 10)) as [B1 B2];
      [Z.to_euclidean_division_equations; lia|].
    cbn [all_chars]. rewrite A1, B1. repeat split; [discriminate|].
    unfold digits_value. cbn [digits_acc]. rewrite A2, B2.
    Z.to_euclidean_division_equations; lia.
  - apply Z.ltb_ge in E.
    destruct (digit_char_val (n / 100)) as [A1 A2];
      [Z.to_euclidean_division_equations; lia|].
    destruct (digit_char_val (n / 10 mod 10)) as [B1 B2];
      [Z.to_euclidean_division_equations; lia|].
    destruct (digit_char_val (n mod 10)) as [C1 C2];
      [Z.to_euclidean_division_equations; lia|].
    cbn [all_chars]. rewrite A1, B1, C1. repeat split; [discriminate|].
    unfold digits_value. cbn [digits_acc]. rewrite A2, B2, C2.
    Z.to_euclidean_division_equations; lia.
Qed.

Lemma digit_val_range (c : ascii) : is_digit c = true -> 0 <= digit_val c <= 9.
Proof.
  destruct c as [[] [] [] [] [] [] [] []]; vm_compute; intros;
    split; congruence.
Qed.

Lemma digit_val_zero (c : ascii) :
  is_digit c = true -> digit_val c = 0 -> c = "0"%char.
Proof.
  destruct c as [[] [] [] [] [] [] [] []]; vm_compute; intros; congruence.
Qed.

Lemma digits_acc_bounds (s : string) :
  all_chars is_digit s = true ->
  forall acc,
    acc * 10 ^ slen s <= digits_acc acc s < (acc + 1) * 10 ^ slen s.
Proof.
  induction s as [|c s IH]; intros H acc.
  - change (slen "") with 0. cbn. lia.
  - cbn [all_chars] in H. apply andb_true_iff in H as [Hc Hs].
    pose proof (digit_val_range c Hc) as Hr.
    specialize (IH Hs (10 * acc + digit_val c)).
    cbn [digits_acc]. rewrite slen_cons.
    rewrite Z.pow_add_r, Z.pow_1_r by (pose proof (slen_nonneg s); lia).
    assert (0 < 10 ^ slen s) by (apply Z.pow_pos_nonneg; [lia|apply slen_nonneg]).
    nia.
Qed.

Lemma take_sign_digit (c : ascii) (r : string) :
  is_digit c = true -> take_sign (String c r) = (false, String c r).
Proof.
  destruct c as [[] [] [] [] [] [] [] []]; vm_compute; intros; congruence.
Qed.

(** The exponent [e] written as in [1e-05] reads back as [e]. *)
Lemma parse_exponent_written (e : Z) :
  -1000 < e < 1000 ->
  parse_exponent
    (String "e" (String (if e <? 0 then "-"%char else "+"%char)
                   (exponent_digits (Z.abs e)))) = Some e.
Proof.
  intros H.
  destruct (exponent_digits_value (Z.abs e)) as (Hd & Hne & Hv); [lia|].
  unfold parse_exponent.
  change (Ascii.eqb "e" "e" || Ascii.eqb "e" "E") with true. cbn iota.
  assert (Hspan : span is_digit (exponent_digits (Z.abs e))
                  = (exponent_digits (Z.abs e), "")).
  { rewrite <- (append_empty_r (exponent_digits (Z.abs e))) at 1.
    now apply span_digits_app. }
  destruct (e <? 0) eqn:E; cbn [take_sign]; rewrite Hspan;
    destruct (exponent_digits (Z.abs e)) eqn:X; try congruence;
    cbn [is_empty orb negb]; rewrite Hv; f_equal;
    [apply Z.ltb_lt in E|apply Z.ltb_ge in E]; lia.
Qed.

End Digits.

(** ** The string form of a float, read back *)

Section RoundTrip.

Ltac conjs := repeat match goal with |- _ /\ _ => split end.

(** A literal with a dot: sign, digits, dot, digits, and an exponent part
    [t] that starts with no digit. *)
Lemma float_literal_point (sgn : bool) (ip fp t : string) (e : Z) :
  all_chars is_digit ip = true ->
  all_chars is_digit fp = true ->
  ip <> "" ->
  match t with EmptyString => True | String c _ => is_digit c = false end ->
  parse_exponent t = Some e ->
  float_literal (with_sign sgn (ip ++ String "." (fp ++ t)))
  = Some (scale10 (signed sgn (digits_value (ip ++ fp))) (e - slen fp)).
Proof.
  intros Hip Hfp Hne Ht He. unfold float_literal.
  assert (Hsign : take_sign (with_sign sgn (ip ++ String "." (fp ++ t)))
                  = (sgn, (ip ++ String "." (fp ++ t))%string)).
  { destruct sgn; [reflexivity|]. unfold with_sign.
    destruct ip as [|c ip]; [congruence|].
    cbn [all_chars] in Hip. apply andb_true_iff in Hip as [Hc _].
    rewrite append_cons. now apply take_sign_digit. }
  rewrite Hsign.
  rewrite (span_digits_app ip (String "." (fp ++ t)) Hip eq_refl).
  rewrite (span_digits_app fp t Hfp Ht).
  destruct ip as [|c ip]; [congruence|]. cbn [is_empty andb].
  rewrite He. reflexivity.
Qed.

Lemma scale10_shift (m k : Z) :
  0 <= k -> scale10 (m * 10 ^ (k + 1)) (-1) = scale10 m k.
Proof.
  intros Hk. unfold scale10.
  destruct (0 <=? k) eqn:E; [|apply Z.leb_gt in E; lia].
  change (0 <=? -1) with false. cbn iota.
  apply Qred_complete. unfold Qeq, inject_Z. cbn [Qnum Qden].
  change (Z.pos (Z.to_pos (10 ^ (- (-1))))) with 10.
  rewrite Z.pow_add_r by lia. lia.
Qed.

Lemma signed_mul (sgn : bool) (m k : Z) : signed sgn (m * k) = signed sgn m * k.
Proof. destruct sgn; cbn; lia. Qed.

(** The layout of a string form that holds a dot, and its reading. *)
Lemma float_repr_shape (d : decimal) :
  well_formed d ->
  has_char "." (float_repr d) = true ->
  exists ip fp t e,
    float_repr d = with_sign (neg d) (ip ++ String "." (fp ++ t))
    /\ all_chars is_digit ip = true
    /\ all_chars is_digit fp = true
    /\ ip <> ""
    /\ all_chars plain_char t = true
    /\ match t with EmptyString => True | String c _ => is_digit c = false end
    /\ parse_exponent t = Some e
    /\ scale10 (signed (neg d) (digits_value (ip ++ fp))) (e - slen fp)
       = dec_value d.
Proof.
  intros (Hd & Hlen & Hp). destruct d as [sgn ds p]. cbn [digits decpt neg] in *.
  assert (Hds : ds <> "") by (intros ->; unfold slen in Hlen; cbn in Hlen; lia).
  unfold float_repr, dec_value. cbn [digits decpt neg]. cbv zeta.
  fold (with_sign sgn). fold (signed sgn (digits_value ds)).
  destruct ((p <=? -4) || (16 <? p)) eqn:Eexp.
  - (* exponent notation *)
    destruct (1 <? slen ds) eqn:En.
    + intros _. apply Z.ltb_lt in En.
      exists (take 1 ds), (drop 1 ds),
        (String "e" (String (if p - 1 <? 0 then "-"%char else "+"%char)
                       (exponent_digits (Z.abs (p - 1))))), (p - 1).
      conjs.
      * now rewrite append_cons.
      * now apply all_chars_take.
      * now apply all_chars_drop.
      * apply take_nonempty; [lia|exact Hds].
      * destruct (exponent_digits_value (Z.abs (p - 1))) as (Hx & _); [lia|].
        cbn [all_chars].
        rewrite (all_chars_impl _ _ _ digit_plain Hx).
        now destruct (p - 1 <? 0).
      * reflexivity.
      * apply parse_exponent_written. lia.
      * rewrite take_drop, slen_drop by (cbn; lia).
        f_equal. cbn. lia.
    + intros Hdot. exfalso. apply Z.ltb_ge in En.
      destruct (exponent_digits_value (Z.abs (p - 1))) as (Hx & _); [lia|].
      assert (Hno : has_char "."
                (take 1 ds ++ "" ++
                 String "e" (String (if p - 1 <? 0 then "-"%char else "+"%char)
                               (exponent_digits (Z.abs (p - 1))))) = false).
      { apply (has_char_none (fun c => negb (Ascii.eqb c "."))); [reflexivity|].
        rewrite all_chars_app, append_empty_l. apply andb_true_iff. split.
        - eapply all_chars_impl; [|apply all_chars_take, Hd].
          intros c Hc. destruct c as [[] [] [] [] [] [] [] []];
            vm_compute in Hc |- *; congruence.
        - cbn [all_chars]. apply andb_true_iff. split; [reflexivity|].
          apply andb_true_iff. split; [now destruct (p - 1 <? 0)|].
          eapply all_chars_impl; [|exact Hx].
          intros c Hc. destruct c as [[] [] [] [] [] [] [] []];
            vm_compute in Hc |- *; congruence. }
      destruct sgn; cbn [with_sign has_char] in Hdot;
        [change (Ascii.eqb "." "-") with false in Hdot; cbn [orb] in Hdot|];
        congruence.
  - apply orb_false_iff in Eexp as [E1 E2].
    apply Z.leb_gt in E1. apply Z.ltb_ge in E2. intros _.
    destruct (p <=? 0) eqn:E0; [|destruct (p <? slen ds) eqn:E3].
    + (* 0.000ddd *)
      apply Z.leb_le in E0.
      exists "0", (zeros (Z.to_nat (- p)) ++ ds)%string, "", 0.
      conjs.
      * now rewrite append_empty_r.
      * reflexivity.
      * rewrite all_chars_app, all_chars_zeros. exact Hd.
      * discriminate.
      * reflexivity.
      * exact I.
      * reflexivity.
      * unfold digits_value. rewrite append_cons, append_empty_l.
        cbn [digits_acc]. change (10 * 0 + digit_val "0") with 0.
        rewrite digits_acc_app, digits_acc_zeros, Z.mul_0_l.
        rewrite slen_app, slen_zeros. f_equal. lia.
    + (* ddd.ddd *)
      apply Z.leb_gt in E0. apply Z.ltb_lt in E3.
      exists (take (Z.to_nat p) ds), (drop (Z.to_nat p) ds), "", 0.
      conjs.
      * now rewrite append_empty_r.
      * now apply all_chars_take.
      * now apply all_chars_drop.
      * apply take_nonempty; [lia|exact Hds].
      * reflexivity.
      * exact I.
      * reflexivity.
      * rewrite take_drop, slen_drop by lia. f_equal. lia.
    + (* ddd000.0 *)
      apply Z.leb_gt in E0. apply Z.ltb_ge in E3.
      exists (ds ++ zeros (Z.to_nat (p - slen ds)))%string, "0", "", 0.
      conjs.
      * now rewrite append_assoc.
      * rewrite all_chars_app, all_chars_zeros. now rewrite Hd.
      * reflexivity.
      * destruct ds; [congruence|]. rewrite append_cons. discriminate.
      * reflexivity.
      * exact I.
      * reflexivity.
      * unfold digits_value.
        rewrite !digits_acc_app, digits_acc_zeros. cbn [digits_acc].
        change (digit_val "0") with 0. fold (digits_value ds).
        change (0 - slen "0") with (-1).
        rewrite <- (scale10_shift _ (p - slen ds)) by lia.
        rewrite <- signed_mul. f_equal. f_equal.
        rewrite Z.pow_add_r, Z2Nat.id by lia. lia.
Qed.

Lemma with_sign_plain (sgn : bool) (body : string) :
  all_chars plain_char body = true ->
  all_chars plain_char (with_sign sgn body) = true.
Proof. intros H. destruct sgn; cbn [with_sign all_chars]; now rewrite ?H. Qed.

(** C9 (as stated, refuted).  The float 1e-05 passes the plausibility
    check, its string form is ["1e-05"], and the normaliser finds no
    number in it. *)
Lemma C9_exponent_form_refuted :
  well_formed (mkDecimal false "1" (-4))
  /\ dec_value (mkDecimal false "1" (-4)) = (1 # 100000)%Q
  /\ is_valid_composition_value (dec_value (mkDecimal false "1" (-4))) "wt.%" = true
  /\ float_repr (mkDecimal false "1" (-4)) = "1e-05"
  /\ ~ (exists r : Q,
          normalize_number (float_repr (mkDecimal false "1" (-4))) = Some r
          /\ (Qabs (r - dec_value (mkDecimal false "1" (-4))) <= 1 # 1000000)%Q).
Proof.
  split; [|split; [|split; [|split]]].
  - unfold well_formed. cbn [digits decpt].
    split; [reflexivity|]. change (slen "1") with 1. lia.
  - reflexivity.
  - reflexivity.
  - reflexivity.
  - intros (r & Hr & _). vm_compute in Hr. discriminate.
Qed.

Lemma has_char_signed (c : ascii) (sgn : bool) (body : string) :
  Ascii.eqb c "-" = false ->
  has_char c (if sgn then String "-" body else body) = has_char c body.
Proof. intros H. destruct sgn; [|reflexivity]. cbn [has_char]. now rewrite H. Qed.

(** Positional notation always writes a decimal point. *)
Lemma positional_has_point (d : decimal) :
  well_formed d -> -4 < decpt d <= 16 ->
  has_char "." (float_repr d) = true.
Proof.
  intros (Hd & Hlen & _) [H1 H2]. destruct d as [sgn ds p].
  cbn [digits decpt neg] in *. unfold float_repr. cbn [digits decpt neg].
  cbv zeta. rewrite has_char_signed by reflexivity.
  assert (((p <=? -4) || (16 <? p)) = false) as ->.
  { apply orb_false_iff. split; [apply Z.leb_gt|apply Z.ltb_ge]; lia. }
  destruct (p <=? 0); [reflexivity|]. destruct (p <? slen ds).
  - apply has_char_middle.
  - rewrite <- append_assoc. apply has_char_middle.
Qed.

(** A float written with [decpt <= -4] is smaller than 1e-4. *)
Lemma small_magnitude (d : decimal) :
  well_formed d -> decpt d <= -4 -> (Qabs (dec_value d) < 1 # 10000)%Q.
Proof.
  intros (Hd & Hlen & Hp) Hsmall. destruct d as [sgn ds p].
  cbn [digits decpt neg] in *. unfold dec_value. cbn [digits decpt neg].
  pose proof (digits_acc_bounds ds Hd 0) as B. fold (digits_value ds) in B.
  set (m := digits_value ds) in *. set (n := slen ds) in *.
  unfold scale10.
  destruct (0 <=? p - n) eqn:E; [apply Z.leb_le in E; lia|].
  rewrite Qred_correct.
  assert (Hpow : 10 ^ (- (p - n)) = 10 ^ n * 10 ^ (- p))
    by (rewrite <- Z.pow_add_r by lia; f_equal; lia).
  assert (H4 : 10 ^ 4 <= 10 ^ (- p)) by (apply Z.pow_le_mono_r; lia).
  change (10 ^ 4) with 10000 in H4.
  assert (Hn : 0 < 10 ^ n) by (apply Z.pow_pos_nonneg; lia).
  unfold Qlt, Qabs. cbn [Qnum Qden].
  rewrite Z2Pos.id by (rewrite Hpow; nia). rewrite Hpow.
  assert (Z.abs (if sgn then - m else m) = m) as -> by (destruct sgn; lia).
  nia.
Qed.

(** A normalised float written with [decpt > 16] fails the check of a
    percentage unit. *)
Lemma plausible_decpt (d : decimal) (u : string) :
  well_formed d -> normalised d ->
  str_in u percent_units = true ->
  is_valid_composition_value (dec_value d) u = true ->
  decpt d <= 16.
Proof.
  intros (Hd & Hlen & Hp) Hnorm Hu Hvalid.
  destruct (Z_le_gt_dec (decpt d) 16) as [H|H]; [exact H|exfalso].
  destruct (percent_bounds _ _ Hu Hvalid) as [Hlo Hhi].
  unfold normalised in Hnorm.
  destruct d as [sgn ds p]. cbn [digits decpt neg] in *.
  destruct Hnorm as [[_ E]|(c & r & -> & Hc)]; [lia|].
  cbn [all_chars] in Hd. apply andb_true_iff in Hd as [Hdc Hdr].
  rewrite slen_cons in Hlen. pose proof (slen_nonneg r) as Hr.
  unfold dec_value in Hlo, Hhi. cbn [digits decpt neg] in Hlo, Hhi.
  rewrite slen_cons in Hlo, Hhi.
  assert (Hm : 10 ^ slen r <= digits_value (String c r)).
  { unfold digits_value. cbn [digits_acc].
    pose proof (digits_acc_bounds r Hdr (10 * 0 + digit_val c)) as B.
    pose proof (digit_val_range c Hdc) as R.
    assert (digit_val c <> 0) by (intros E; now apply Hc, digit_val_zero).
    assert (0 < 10 ^ slen r) by (apply Z.pow_pos_nonneg; lia).
    nia. }
  set (m := digits_value (String c r)) in *.
  unfold scale10 in Hlo, Hhi.
  destruct (0 <=? p - (1 + slen r)) eqn:E; [|apply Z.leb_gt in E; lia].
  apply Z.leb_le in E.
  rewrite Qred_correct in Hlo, Hhi.
  assert (Hbig : 10 ^ 16 <= m * 10 ^ (p - (1 + slen r))).
  { assert (H16 : 10 ^ 16 <= 10 ^ (p - 1)) by (apply Z.pow_le_mono_r; lia).
    assert (Hsplit : 10 ^ (p - 1) = 10 ^ slen r * 10 ^ (p - (1 + slen r)))
      by (rewrite <- Z.pow_add_r by lia; f_equal; lia).
    assert (0 < 10 ^ (p - (1 + slen r))) by (apply Z.pow_pos_nonneg; lia).
    nia. }
  change (10 ^ 16) with 10000000000000000 in Hbig.
  set (k := 10 ^ (p - (1 + slen r))) in *.
  unfold Qlt, Qle, inject_Z in Hlo, Hhi. cbn [Qnum Qden Qopp] in Hlo, Hhi.
  destruct sgn; lia.
Qed.

(** Exponent notation for a small magnitude, without a decimal point:
    the normaliser finds no number in it. *)
Lemma exponent_form_unreadable (d : decimal) :
  well_formed d -> decpt d <= -4 ->
  has_char "." (float_repr d) = false ->
  normalize_number (float_repr d) = None.
Proof.
  intros (Hd & Hlen & Hp) Hsmall Hdot. destruct d as [sgn ds p].
  cbn [digits decpt neg] in *.
  destruct (exponent_digits_value (Z.abs (p - 1))) as (Hx & _); [lia|].
  assert (Hrepr : exists c,
            is_digit c = true
            /\ float_repr (mkDecimal sgn ds p)
               = with_sign sgn
                   (String c (String "e"
                      (String "-" (exponent_digits (Z.abs (p - 1))))))).
  { unfold float_repr in Hdot |- *. cbn [digits decpt neg] in Hdot |- *.
    cbv zeta in Hdot |- *.
    assert (((p <=? -4) || (16 <? p)) = true) as E
      by (apply orb_true_iff; left; apply Z.leb_le; lia).
    rewrite E in Hdot |- *.
    assert ((p - 1 <? 0) = true) as E1 by (apply Z.ltb_lt; lia).
    rewrite E1 in Hdot |- *.
    rewrite has_char_signed in Hdot by reflexivity.
    destruct (1 <? slen ds) eqn:En.
    - exfalso. rewrite append_cons, has_char_middle in Hdot. discriminate.
    - apply Z.ltb_ge in En.
      destruct ds as [|c [|c' r]].
      + change (slen "") with 0 in Hlen. lia.
      + exists c. cbn [all_chars] in Hd. apply andb_true_iff in Hd as [Hc _].
        split; [exact Hc|]. reflexivity.
      + rewrite !slen_cons in En. pose proof (slen_nonneg r). lia. }
  destruct Hrepr as (c & Hc & Hrepr). rewrite Hrepr in Hdot |- *.
  set (X := exponent_digits (Z.abs (p - 1))) in *.
  assert (HXplain : all_chars plain_char X = true)
    by (eapply all_chars_impl; [apply digit_plain|exact Hx]).
  assert (HXkeep : all_chars digit_or_minus X = true).
  { eapply all_chars_impl; [|exact Hx]. intros x Hdx.
    unfold digit_or_minus. now rewrite Hdx. }
  set (s := with_sign sgn (String c (String "e" (String "-" X)))) in *.
  set (t := with_sign sgn (String c (String "-" X))).
  assert (Hplain : all_chars plain_char s = true).
  { apply with_sign_plain. cbn [all_chars].
    now rewrite (digit_plain c Hc), HXplain. }
  assert (Htplain : all_chars plain_char t = true).
  { apply with_sign_plain. cbn [all_chars].
    now rewrite (digit_plain c Hc), HXplain. }
  assert (Hsub : sub_non_numeric s = t).
  { unfold sub_non_numeric, s, t.
    assert (Hbody : filter_chars digit_or_minus
                      (String c (String "e" (String "-" X)))
                    = String c (String "-" X)).
    { cbn [filter_chars]. unfold digit_or_minus at 1. rewrite Hc. cbn [orb].
      change (digit_or_minus "e") with false.
      change (digit_or_minus "-") with true. cbn iota.
      now rewrite (filter_chars_all _ _ HXkeep). }
    destruct sgn; cbn [with_sign]; [|exact Hbody].
    change (filter_chars digit_or_minus
              (String "-" (String c (String "e" (String "-" X)))))
      with (String "-" (filter_chars digit_or_minus
                          (String c (String "e" (String "-" X))))).
    now rewrite Hbody. }
  assert (Hkeep : sub_non_numeric t = t).
  { unfold sub_non_numeric. apply filter_chars_all. unfold t.
    destruct sgn; cbn [with_sign all_chars]; unfold digit_or_minus at 1;
      [change (is_digit "-" || Ascii.eqb "-" "-") with true; cbn [andb];
       unfold digit_or_minus at 1|];
      rewrite Hc; cbn [orb andb];
      change (digit_or_minus "-") with true; cbn [andb]; exact HXkeep. }
  assert (Hne : is_empty t = false) by (unfold t; now destruct sgn).
  assert (Hminus : String.eqb t "-" = false).
  { apply String.eqb_neq. unfold t. destruct sgn; discriminate. }
  assert (Hint : int_of_string t = None).
  { unfold int_of_string.
    assert (Hsp : all_chars (fun x => negb (is_c_space x)) t = true).
    { eapply all_chars_impl; [|exact Htplain]. intros x Hpx.
      now rewrite (plain_not_c_space x Hpx). }
    unfold c_strip. rewrite lstrip_none, rstrip_none by assumption.
    assert (Hsign : take_sign t = (sgn, String c (String "-" X))).
    { unfold t. destruct sgn; [reflexivity|]. now apply take_sign_digit. }
    rewrite Hsign.
    assert (Hus : all_chars (fun x => negb (is_underscore x))
                    (String c (String "-" X)) = true).
    { cbn [all_chars]. rewrite (plain_not_underscore c (digit_plain c Hc)).
      cbn [negb andb]. change (is_underscore "-") with false. cbn [negb andb].
      eapply all_chars_impl; [|exact HXplain]. intros x Hpx.
      now rewrite (plain_not_underscore x Hpx). }
    rewrite (underscores_ok_none _ Hus None I). cbn [negb].
    rewrite (filter_chars_all _ _ Hus). cbn [is_empty orb all_chars].
    change (is_digit "-") with false. now rewrite andb_false_r. }
  unfold normalize_number.
  assert (is_empty s = false) as -> by (unfold s; now destruct sgn).
  rewrite (clean_token_plain s Hplain), Hdot.
  unfold infer_from. rewrite Hsub, Hne, Hminus. cbn [orb].
  unfold infer_decimal_placement. rewrite Hkeep, Hne, Hminus. cbn [orb].
  now rewrite Hint.
Qed.

(** C9 (amended).  For a float in the plausibility range of a percentage
    unit: when its string form holds a decimal point, normalising the
    string form gives back the float itself; the string form holds a
    decimal point whenever the magnitude of the float is at least 1e-4;
    and when it holds none, the normaliser returns the absence signal. *)
Theorem C9_string_form_roundtrip (d : decimal) (u : string) :
  well_formed d ->
  str_in u percent_units = true ->
  is_valid_composition_value (dec_value d) u = true ->
  (has_char "." (float_repr d) = true ->
   normalize_number (float_repr d) = Some (dec_value d))
  /\ (normalised d -> (1 # 10000 <= Qabs (dec_value d))%Q ->
      has_char "." (float_repr d) = true)
  /\ (normalised d -> has_char "." (float_repr d) = false ->
      normalize_number (float_repr d) = None).
Proof.
  intros Hwf Hu Hvalid.
  assert (Hpoint : normalised d -> -4 < decpt d ->
                   has_char "." (float_repr d) = true).
  { intros Hn Hlow. apply positional_has_point; [exact Hwf|].
    split; [exact Hlow|]. exact (plausible_decpt d u Hwf Hn Hu Hvalid). }
  split; [|split].
  - intros Hdot.
    destruct (float_repr_shape d Hwf Hdot)
      as (ip & fp & t & e & Hshape & Hip & Hfp & Hne & Ht & Htail & He & Hval).
    assert (Hplain : all_chars plain_char (float_repr d) = true).
    { rewrite Hshape. apply with_sign_plain.
      rewrite all_chars_app. cbn [all_chars]. rewrite all_chars_app.
      rewrite (all_chars_impl _ _ _ digit_plain Hip).
      rewrite (all_chars_impl _ _ _ digit_plain Hfp).
      now rewrite Ht. }
    assert (Hle : fltb 100 (dec_value d) = false).
    { apply fltb_ge. exact (proj2 (percent_bounds _ _ Hu Hvalid)). }
    unfold normalize_number.
    assert (is_empty (float_repr d) = false) as ->
      by (destruct (float_repr d); [discriminate|reflexivity]).
    rewrite (clean_token_plain _ Hplain), Hdot.
    rewrite (float_of_string_plain _ Hplain), Hshape.
    rewrite (float_literal_point (neg d) ip fp t e Hip Hfp Hne Htail He).
    rewrite Hval, Hle. reflexivity.
  - intros Hn Hmag. apply Hpoint; [exact Hn|].
    destruct (Z_le_gt_dec (decpt d) (-4)) as [H|H]; [exfalso|lia].
    pose proof (small_magnitude d Hwf H) as Hs.
    eapply Qlt_not_le; eauto.
  - intros Hn Hdot.
    destruct (Z_le_gt_dec (decpt d) (-4)) as [H|H].
    + now apply exponent_form_unreadable.
    + rewrite Hpoint in Hdot by (assumption || lia). discriminate.
Qed.

Lemma C9_witness :
  normalize_number (float_repr (mkDecimal false "19" 0))
  = Some (dec_value (mkDecimal false "19" 0)).
Proof.
  apply (C9_string_form_roundtrip (mkDecimal false "19" 0) "wt.%").
  - unfold well_formed. cbn [digits decpt].
    split; [reflexivity|]. change (slen "19") with 2. lia.
  - reflexivity.
  - reflexivity.
  - reflexivity.
Defined.

End RoundTrip.

(** ** Decimal-placement inference on digit strings *)

Section Inference.

(** A digit string is read by [int()] as its value. *)
Lemma int_of_digits (s : string) :
  all_chars is_digit s = true -> s <> "" ->
  int_of_string s = Some (digits_value s).
Proof.
  intros H Hne. unfold int_of_string.
  assert (Hsp : all_chars (fun c => negb (is_c_space c)) s = true).
  { eapply all_chars_impl; [|exact H]. intros c Hc.
    now rewrite (plain_not_c_space c (digit_plain c Hc)). }
  assert (Hus : all_chars (fun c => negb (is_underscore c)) s = true).
  { eapply all_chars_impl; [|exact H]. intros c Hc.
    now rewrite (plain_not_underscore c (digit_plain c Hc)). }
  unfold c_strip. rewrite lstrip_none, rstrip_none by assumption.
  destruct s as [|c r]; [congruence|].
  pose proof H as H'. cbn [all_chars] in H'. apply andb_true_iff in H' as [Hc _].
  rewrite (take_sign_digit c r Hc).
  rewrite (underscores_ok_none _ Hus None I). cbn [negb].
  rewrite (filter_chars_all _ _ Hus), H. reflexivity.
Qed.

(** On a string of digits that does not start with a zero the code
    follows the digit-count table: the number of digits and the size of
    the integer then determine each other. *)
Lemma infer_follows_table (c : ascii) (r : string) :
  is_digit c = true -> c <> "0"%char -> all_chars is_digit r = true ->
  infer_decimal_placement (String c r) false
  = Some (Spec.digit_count_table (String c r)).
Proof.
  intros Hc Hnz Hr.
  assert (Hall : all_chars is_digit (String c r) = true)
    by (cbn [all_chars]; now rewrite Hc, Hr).
  unfold infer_decimal_placement, sub_non_numeric.
  rewrite filter_chars_all.
  2:{ eapply all_chars_impl; [|exact Hall]. intros x Hx.
      unfold digit_or_minus. now rewrite Hx. }
  assert (String.eqb (String c r) "-" = false) as ->.
  { apply String.eqb_neq. intros E. inversion E; subst. discriminate. }
  cbn [is_empty orb]. rewrite int_of_digits by (assumption || discriminate).
  unfold Spec.digit_count_table.
  remember (digits_value (String c r)) as num eqn:Enum.
  assert (Hb : 10 ^ slen r <= num < 10 * 10 ^ slen r).
  { rewrite Enum. unfold digits_value. cbn [digits_acc].
    pose proof (digits_acc_bounds r Hr (10 * 0 + digit_val c)) as B.
    pose proof (digit_val_range c Hc) as R.
    assert (digit_val c <> 0) by (intros E; now apply Hnz, digit_val_zero).
    assert (0 < 10 ^ slen r) by (apply Z.pow_pos_nonneg; [lia|apply slen_nonneg]).
    nia. }
  rewrite slen_cons. pose proof (slen_nonneg r) as Hn.
  assert (Hcases : slen r = 0 \/ slen r = 1 \/ slen r = 2 \/ slen r = 3 \/ 4 <= slen r)
    by lia.
  destruct Hcases as [E|[E|[E|[E|E]]]].
  1-4: rewrite E in Hb |- *; cbn in Hb;
    repeat match goal with
    | |- context [?a <? ?b] => destruct (Z.ltb_spec a b)
    | |- context [?a =? ?b] => destruct (Z.eqb_spec a b)
    end; try lia; reflexivity.
  assert (10 ^ 4 <= 10 ^ slen r) by (apply Z.pow_le_mono_r; lia).
  change (10 ^ 4) with 10000 in *.
  replace (1 + slen r - 1) with (slen r) by lia.
  repeat match goal with
    | |- context [?a <? ?b] => destruct (Z.ltb_spec a b)
    | |- context [?a =? ?b] => destruct (Z.eqb_spec a b)
    end; try lia; reflexivity.
Qed.

(** C3.  On the three-digit string ["005"] the decimal-placement inference
    returns 5.0, where the digit-count table gives 5 / 1000; on the
    four-digit string ["0050"] it returns 5.0, where the table gives
    50 / 10000.  The code chooses the branch by the integer value, so a
    string with leading zeros falls into the row of a shorter string. *)
Theorem C3_leading_zeros :
  infer_decimal_placement "005" false = Some 5%Q
  /\ Spec.digit_count_table "005" = (1 # 200)%Q
  /\ infer_decimal_placement "0050" false = Some 5%Q
  /\ Spec.digit_count_table "0050" = (1 # 200)%Q.
Proof. repeat split; vm_compute; reflexivity. Qed.

(** Outside the percentage units the plausibility check has no upper
    bound, and a plausible 150.0 is normalised to 15.0. *)
Lemma large_value_rescaled :
  is_valid_composition_value 150 "ppm" = true
  /\ float_repr (mkDecimal false "15" 3) = "150.0"
  /\ normalize_number "150.0" = Some 15%Q.
Proof. repeat split; reflexivity. Qed.

End Inference.

(** ** The numeric normaliser *)

Section Normalizer.

(** C1 (as stated, refuted).  On ["<0.001"] the normaliser does not return
    a marker that is neither the absence signal nor a float: it returns a
    float. *)
Lemma C1_trace_marker_refuted :
  ~ (normalize_number "<0.001" <> None
     /\ forall v : Q, normalize_number "<0.001" <> Some v).
Proof.
  intros [_ H]. apply (H (1 # 1000)%Q). vm_compute. reflexivity.
Qed.

(** C1 (amended).  On ["<0.001"] the normaliser returns the float 0.001,
    the magnitude after the ["<"] prefix: the result is not the absence
    signal and not 0.0, and it is an ordinary float; whatever the
    arithmetic of the interpreter, it is [float("0.001")].  The table
    that holds the cell alone under a header yields the record Y = 0.001;
    the table that holds it next to 99.0 and 98.0, whose mean with it
    exceeds 50, yields the three values divided by 100. *)
Theorem C1_trace_value_kept :
  normalize_number "<0.001" = Some (1 # 1000)%Q
  /\ normalize_number "<0.001" <> None
  /\ normalize_number "<0.001" <> Some 0%Q
  /\ (forall A : Machine.arithmetic,
        Machine.normalize_number A "<0.001"
        = Machine.Value (Machine.of_decimal A false 1 (-3)))
  /\ parse_table_to_composition_data
       [["Element"; "wt.%"]; ["Y"; "<0.001"]]
     = [mkRecord "Y" (1 # 1000) "wt.%"]
  /\ parse_table_to_composition_data
       [["Element"; "wt.%"]; ["Al"; "99.0"]; ["V"; "98.0"]; ["Y"; "<0.001"]]
     = [mkRecord "Al" (99 # 100) "wt.%"; mkRecord "V" (49 # 50) "wt.%";
        mkRecord "Y" (1 # 100000) "wt.%"].
Proof.
  split; [vm_compute; reflexivity|].
  split; [vm_compute; congruence|].
  split; [vm_compute; congruence|].
  split.
  - intros A. unfold Machine.normalize_number.
    change (is_empty "<0.001") with false.
    change (clean_token "<0.001") with (true, "0.001").
    change (has_char "." "0.001") with true.
    unfold Machine.float_of_string.
    change (Machine.float_parts "0.001") with (Some (false, 1, -3)).
    cbn [negb]. now rewrite andb_false_r.
  - split; vm_compute; reflexivity.
Qed.

(** C5 (as stated, refuted).  ["-500.5"] is not a trace value, keeps its
    dot, parses to -500.5 whose magnitude exceeds 100, and is returned
    unchanged rather than divided by 10. *)
Lemma C5_magnitude_refuted :
  clean_token "-500.5" = (false, "-500.5")
  /\ has_char "." "-500.5" = true
  /\ float_of_string "-500.5" = Some (-1001 # 2)%Q
  /\ (100 < Qabs (-1001 # 2))%Q
  /\ normalize_number "-500.5" = Some (-1001 # 2)%Q
  /\ normalize_number "-500.5" <> Some (fdiv (-1001 # 2) 10).
Proof. repeat split; vm_compute; congruence. Qed.

(** The literal grammar, the conversions and the normaliser of [Parsing]
    are those of [Machine] over the exact arithmetic. *)
Lemma literal_parts_exact (s : string) :
  float_literal s
  = match Machine.literal_parts s with
    | Some (sgn, m, e) => Some (scale10 (if sgn then - m else m) e)
    | None => None
    end.
Proof.
  unfold float_literal, Machine.literal_parts.
  destruct (take_sign s) as [sgn s1]. destruct (span is_digit s1) as [ip s2].
  destruct (match s2 with
            | String "." r => span is_digit r
            | _ => (EmptyString, s2)
            end) as [fp s3].
  destruct (is_empty ip && is_empty fp); [reflexivity|].
  destruct (parse_exponent s3); reflexivity.
Qed.

Lemma float_of_string_exact (s : string) :
  Machine.float_of_string Machine.rationals s = float_of_string s.
Proof.
  unfold Machine.float_of_string, Machine.float_parts, float_of_string.
  destruct (negb (underscores_ok None (c_strip s))); [reflexivity|].
  rewrite literal_parts_exact.
  destruct (Machine.literal_parts _) as [[[sgn m] e]|]; reflexivity.
Qed.

Lemma infer_exact (s : string) (is_trace : bool) :
  Machine.returned (Machine.infer_decimal_placement Machine.rationals s is_trace)
  = infer_decimal_placement s is_trace.
Proof.
  unfold Machine.infer_decimal_placement, infer_decimal_placement.
  destruct (is_empty (sub_non_numeric s) || String.eqb (sub_non_numeric s) "-");
    [reflexivity|].
  cbn [Machine.int_max_str_digits Machine.rationals].
  unfold Machine.int_of_string_within.
  destruct (int_of_string (sub_non_numeric s)) as [n|]; [|reflexivity].
  cbv zeta.
  repeat match goal with
         | |- context [if ?c then _ else _] => destruct c
         end; reflexivity.
Qed.

Lemma normalize_exact (s : string) :
  Machine.returned (Machine.normalize_number Machine.rationals s)
  = normalize_number s.
Proof.
  unfold Machine.normalize_number, normalize_number.
  destruct (is_empty s); [reflexivity|].
  destruct (clean_token s) as [is_trace v].
  assert (Hinfer : forall t,
            Machine.returned (Machine.infer_from Machine.rationals t is_trace)
            = infer_from t is_trace).
  { intros t. unfold Machine.infer_from, infer_from.
    destruct (is_empty (sub_non_numeric t) || String.eqb (sub_non_numeric t) "-");
      [reflexivity|apply infer_exact]. }
  destruct (has_char "." v); [|apply Hinfer].
  rewrite float_of_string_exact.
  destruct (float_of_string v) as [x|]; [|apply Hinfer].
  change (Machine.gt_int Machine.rationals x 100) with (fltb 100 x).
  change (Machine.gt_int Machine.rationals x 1000) with (fltb 1000 x).
  destruct (fltb 100 x && negb is_trace); [|reflexivity].
  destruct (fltb 1000 x); reflexivity.
Qed.

(** C5 (amended).  Whatever the arithmetic of the interpreter, for a
    non-trace input whose cleaned text keeps a dot and is read by
    [float()] as [x]: when [x > 100] and [x > 1000] the result is
    [x / 1000]; when [x > 100] but not [x > 1000] it is [x / 10]; when
    [x > 100] does not hold it is [x] itself.  The comparisons are on the
    signed value, so that a negative value, which is not greater than
    100, is returned as it was read, whatever its magnitude. *)
Theorem C5_out_of_range_correction (A : Machine.arithmetic) (s v : string)
    (x : Machine.num A) :
  clean_token s = (false, v) ->
  has_char "." v = true ->
  Machine.float_of_string A v = Some x ->
  (Machine.gt_int A x 100 = true -> Machine.gt_int A x 1000 = true ->
   Machine.normalize_number A s = Machine.Value (Machine.div_int A x 1000))
  /\ (Machine.gt_int A x 100 = true -> Machine.gt_int A x 1000 = false ->
      Machine.normalize_number A s = Machine.Value (Machine.div_int A x 10))
  /\ (Machine.gt_int A x 100 = false ->
      Machine.normalize_number A s = Machine.Value x)
  /\ (forall y : Q, float_of_string v = Some y -> (y < 0)%Q ->
      normalize_number s = Some y).
Proof.
  intros Hc Hdot Hf.
  assert (Hs : is_empty s = false).
  { destruct s; [|reflexivity]. vm_compute in Hc. inversion Hc; subst.
    discriminate. }
  unfold Machine.normalize_number, normalize_number.
  rewrite Hs, Hc, Hdot, Hf. cbn [negb].
  split; [|split; [|split]].
  - intros H1 H2. now rewrite H1, H2.
  - intros H1 H2. now rewrite H1, H2.
  - intros H1. now rewrite H1.
  - intros y Hy Hneg. rewrite Hy.
    assert (fltb 100 y = false) as ->; [|reflexivity].
    apply fltb_ge. apply Qlt_le_weak. eapply Qlt_trans; [exact Hneg|reflexivity].
Qed.

Lemma C5_witness :
  Machine.normalize_number Machine.binary64 "100.00000000000000001"
  = Machine.Value (Machine.round_decimal false 10000000000000000001 (-17)).
Proof.
  refine (proj1 (proj2 (proj2
            (C5_out_of_range_correction Machine.binary64
               "100.00000000000000001" "100.00000000000000001"
               (Machine.round_decimal false 10000000000000000001 (-17))
               _ _ _))) _);
    vm_compute; reflexivity.
Defined.

End Normalizer.

(** ** The floats of the interpreter at work *)

Section BinaryFloats.

(** [float("100.00000000000000001")] is 100.0, which is not greater than
    100: the normaliser returns it as it is, where exact arithmetic
    divides by 10. *)
Lemma literal_rounded_to_threshold :
  Machine.normalize_number Machine.binary64 "100.00000000000000001"
  = Machine.Value (Machine.round_int 100)
  /\ normalize_number "100.00000000000000001"
     = Some (10000000000000000001 # 1000000000000000000)%Q.
Proof. split; vm_compute; reflexivity. Qed.

(** Seventeen nines divided by [10 ** 16] round to 10.0. *)
Lemma digits_rounded_to_ten :
  Machine.normalize_number Machine.binary64 "99999999999999999"
  = Machine.Value (Machine.round_int 10).
Proof. vm_compute. reflexivity. Qed.

(** A trace value of 401 digits: the division by 1000000 raises
    [OverflowError]. *)
Lemma long_trace_overflows :
  Machine.normalize_number Machine.binary64
    (String "<" (String "1" (zeros 400)))
  = Machine.Overflow.
Proof. vm_compute. reflexivity. Qed.

(** A text of 4301 digits is refused by [int()]. *)
Lemma long_digits_refused :
  Machine.normalize_number Machine.binary64 (String "1" (zeros 4300))
  = Machine.Unparseable.
Proof. vm_compute. reflexivity. Qed.

(** The mean of 66.2, 75.4 and 8.4 is computed as 50.00000000000001, on
    the other side of the threshold than their exact mean, 50. *)
Lemma rounded_mean_exceeds :
  Machine.gt_int Machine.binary64
    (Machine.div_int Machine.binary64
       (Machine.total Machine.binary64
          [Machine.round_decimal false 662 (-1);
           Machine.round_decimal false 754 (-1);
           Machine.round_decimal false 84 (-1)]) 3) 50 = true
  /\ Machine.gt_int Machine.rationals
       (Machine.div_int Machine.rationals
          (Machine.total Machine.rationals
             [(331 # 5)%Q; (377 # 5)%Q; (42 # 5)%Q]) 3) 50 = false.
Proof. split; vm_compute; reflexivity. Qed.

End BinaryFloats.

(** * Further properties of the code *)

(** ** The element identifier and the unit *)

Section Identifier.

Lemma str_in_In (s : string) (l : list string) : str_in s l = true -> In s l.
Proof.
  unfold str_in. intros H. apply existsb_exists in H as (x & Hx & E).
  apply String.eqb_eq in E. now subst.
Qed.

Lemma first_symbol_priority (p : string -> bool) (e : string) :
  first_symbol p = Some e -> In e PRIORITY_ELEMENTS.
Proof. unfold first_symbol. intros H. now apply find_some in H. Qed.

Lemma match_symbols_priority (text e : string) :
  match_symbols text = Some e -> In e PRIORITY_ELEMENTS.
Proof.
  unfold match_symbols.
  destruct (str_in text PRIORITY_ELEMENTS) eqn:E.
  { intros [= <-]. now apply str_in_In. }
  repeat match goal with
  | |- context [first_symbol ?p] =>
      let H := fresh "F" in
      destruct (first_symbol p) eqn:H;
      [intros [= <-]; now apply first_symbol_priority in H|]
  end.
  discriminate.
Qed.

Lemma extract_symbol_member (text e : string) :
  extract_element_symbol text = Some e -> In e PRIORITY_ELEMENTS.
Proof.
  unfold extract_element_symbol.
  set (t := strip text).
  assert (Hafter : forall r,
    match ocr_corrections !! lower t with
    | Some corrected =>
        if truthy corrected && str_in (default "" corrected) PRIORITY_ELEMENTS
        then corrected else match_symbols t
    | None => match_symbols t
    end = Some r -> In r PRIORITY_ELEMENTS).
  { intros r. destruct (ocr_corrections !! lower t) as [[c|]|].
    - destruct (truthy (Some c) && str_in (default "" (Some c)) PRIORITY_ELEMENTS) eqn:E.
      + apply andb_true_iff in E as [_ E]. intros [= <-]. now apply str_in_In.
      + apply match_symbols_priority.
    - cbn [truthy andb]. apply match_symbols_priority.
    - apply match_symbols_priority. }
  destruct (ocr_corrections !! t) as [[c|]|].
  - destruct (truthy (Some c) && str_in (default "" (Some c)) PRIORITY_ELEMENTS) eqn:E.
    + apply andb_true_iff in E as [_ E]. intros [= <-]. now apply str_in_In.
    + apply Hafter.
  - cbn [truthy andb]. discriminate.
  - apply Hafter.
Qed.

(** The identifier never answers with a symbol outside the priority set:
    a correction to [Mn], [S], [Si], ... is dropped, and every other path
    returns a member of the list. *)
Theorem extract_element_symbol_priority (text e : string) :
  extract_element_symbol text = Some e -> In e PRIORITY_ELEMENTS.
Proof. apply extract_symbol_member. Qed.

Lemma extract_element_symbol_witness :
  In "Al" PRIORITY_ELEMENTS.
Proof.
  apply (extract_element_symbol_priority " al "). vm_compute. reflexivity.
Defined.

Lemma extract_unit_member (text : string) :
  In (extract_unit text) Config.COMPOSITION_UNITS
  /\ str_in (extract_unit text) percent_units = true.
Proof.
  assert (H : In (extract_unit text) Config.COMPOSITION_UNITS).
  { unfold extract_unit.
    destruct (List.find _ Config.COMPOSITION_UNITS) eqn:E.
    - now apply find_some in E.
    - cbn. auto. }
  split; [exact H|].
  cbn in H. repeat destruct H as [<-|H]; try reflexivity. destruct H.
Qed.

(** The unit is always one of the five configured units, all of which
    are percentage units of the plausibility check: the default is used
    when the text names none. *)
Theorem extract_unit_known (text : string) :
  In (extract_unit text) Config.COMPOSITION_UNITS
  /\ str_in (extract_unit text) percent_units = true.
Proof. apply extract_unit_member. Qed.

End Identifier.

(** ** Text without digits *)

Section NoDigits.
Context (p : ascii -> bool).

Lemma all_chars_lstrip (q : ascii -> bool) (s : string) :
  all_chars p s = true -> all_chars p (lstrip_by q s) = true.
Proof.
  induction s as [|c s IH]; cbn [lstrip_by]; [auto|].
  intros H. destruct (q c); [|exact H].
  cbn [all_chars] in H. apply andb_true_iff in H as [_ H]. auto.
Qed.

Lemma all_chars_rstrip (q : ascii -> bool) (s : string) :
  all_chars p s = true -> all_chars p (rstrip_by q s) = true.
Proof.
  induction s as [|c s IH]; cbn [rstrip_by all_chars]; [auto|].
  intros [Hc Hs]%andb_true_iff.
  destruct (q c && is_empty (rstrip_by q s)); [reflexivity|].
  cbn [all_chars]. now rewrite Hc, IH.
Qed.

Lemma all_chars_filter (q : ascii -> bool) (s : string) :
  all_chars p s = true -> all_chars p (filter_chars q s) = true.
Proof.
  induction s as [|c s IH]; cbn [filter_chars all_chars]; [auto|].
  intros [Hc Hs]%andb_true_iff.
  destruct (q c); cbn [all_chars]; rewrite ?Hc; auto.
Qed.

Lemma all_chars_replace1 (old : ascii) (new s : string) :
  all_chars p new = true -> all_chars p s = true ->
  all_chars p (replace1 old new s) = true.
Proof.
  intros Hn. induction s as [|c s IH]; cbn [replace1 all_chars]; [auto|].
  intros [Hc Hs]%andb_true_iff.
  destruct (Ascii.eqb c old).
  - rewrite all_chars_app, Hn. cbn. auto.
  - cbn [all_chars]. rewrite Hc. cbn. auto.
Qed.

Lemma all_chars_tail (s : string) :
  all_chars p s = true -> all_chars p (Str.tail s) = true.
Proof.
  destruct s as [|c s]; cbn; [auto|]. now intros [_ H]%andb_true_iff.
Qed.

End NoDigits.

Section Unparseable.

Lemma sub_gap_no_digit (s : string) :
  all_chars no_digit s = true -> sub_gap None s = s.
Proof.
  induction s as [|c s IH]; cbn [sub_gap all_chars]; [reflexivity|].
  intros [Hc Hs]%andb_true_iff. apply negb_true_iff in Hc.
  rewrite Hc. now rewrite IH.
Qed.

Lemma span_no_digit (s : string) :
  all_chars no_digit s = true -> span is_digit s = ("", s).
Proof.
  destruct s as [|c s]; cbn [span all_chars]; [reflexivity|].
  intros [Hc _]%andb_true_iff. apply negb_true_iff in Hc. now rewrite Hc.
Qed.

Lemma take_sign_no_digit (s : string) :
  all_chars no_digit s = true -> all_chars no_digit (snd (take_sign s)) = true.
Proof.
  destruct s as [|c s]; [reflexivity|].
  intros H. pose proof H as H'. cbn [all_chars] in H'.
  apply andb_true_iff in H' as [_ Hs].
  unfold take_sign.
  destruct c as [[] [] [] [] [] [] [] []]; cbn [snd]; assumption.
Qed.

(** [float()] needs a digit. *)
Lemma float_of_string_no_digit (s : string) :
  all_chars no_digit s = true -> float_of_string s = None.
Proof.
  intros H. unfold float_of_string.
  destruct (negb (underscores_ok None (c_strip s))); [reflexivity|].
  assert (H1 : all_chars no_digit
                 (filter_chars (fun c => negb (is_underscore c)) (c_strip s)) = true).
  { apply all_chars_filter. unfold c_strip.
    now apply all_chars_rstrip, all_chars_lstrip. }
  unfold float_literal.
  pose proof (take_sign_no_digit _ H1) as H2.
  destruct (take_sign _) as [sgn s1]. cbn [snd] in H2.
  rewrite (span_no_digit s1 H2).
  destruct s1 as [|c r]; [reflexivity|].
  cbn [all_chars] in H2. apply andb_true_iff in H2 as [_ Hr].
  assert (Hfp : fst (match String c r with
                     | String "." r0 => span is_digit r0
                     | _ => ("", String c r)
                     end) = "").
  { destruct c as [[] [] [] [] [] [] [] []]; try reflexivity.
    now rewrite (span_no_digit r Hr). }
  destruct (match String c r with
            | String "." r0 => span is_digit r0
            | _ => ("", String c r)
            end) as [fp s3].
  cbn [fst] in Hfp. subst fp. reflexivity.
Qed.

(** [int()] needs a digit. *)
Lemma int_of_string_no_digit (s : string) :
  all_chars no_digit s = true -> int_of_string s = None.
Proof.
  intros H. unfold int_of_string.
  assert (H1 : all_chars no_digit (c_strip s) = true).
  { unfold c_strip. now apply all_chars_rstrip, all_chars_lstrip. }
  pose proof (take_sign_no_digit _ H1) as H2.
  destruct (take_sign (c_strip s)) as [sgn body]. cbn [snd] in H2.
  destruct (negb (underscores_ok None body)); [reflexivity|].
  pose proof (all_chars_filter no_digit (fun c => negb (is_underscore c)) body H2) as H3.
  destruct (filter_chars _ body) as [|c r]; [reflexivity|].
  cbn [all_chars] in H3. apply andb_true_iff in H3 as [Hc _].
  apply negb_true_iff in Hc. cbn [is_empty all_chars orb]. now rewrite Hc.
Qed.

Lemma infer_no_digit (s : string) (is_trace : bool) :
  all_chars no_digit s = true -> infer_decimal_placement s is_trace = None.
Proof.
  intros H. unfold infer_decimal_placement.
  destruct (_ || _); [reflexivity|].
  rewrite int_of_string_no_digit; [reflexivity|].
  now apply all_chars_filter.
Qed.

Lemma infer_from_no_digit (s : string) (is_trace : bool) :
  all_chars no_digit s = true -> infer_from s is_trace = None.
Proof.
  intros H. unfold infer_from.
  destruct (_ || _); [reflexivity|].
  apply infer_no_digit. now apply all_chars_filter.
Qed.

(** The normaliser never makes a number out of text that holds no digit:
    dots, commas, signs, letters and white space alone are unparseable. *)
Theorem normalize_number_needs_digit (value : string) :
  all_chars no_digit value = true -> normalize_number value = None.
Proof.
  intros H. unfold normalize_number.
  destruct (is_empty value); [reflexivity|].
  assert (Hc : all_chars no_digit (snd (clean_token value)) = true).
  { unfold clean_token. cbn [snd]. unfold sub_digit_gaps.
    set (v0 := strip value).
    assert (H0 : all_chars no_digit v0 = true)
      by (unfold v0, strip; now apply all_chars_rstrip, all_chars_lstrip).
    set (v1 := if startswith v0 "<" then strip (Str.tail v0) else v0).
    assert (H1 : all_chars no_digit v1 = true).
    { unfold v1. destruct (startswith v0 "<"); [|exact H0].
      unfold strip. now apply all_chars_rstrip, all_chars_lstrip, all_chars_tail. }
    assert (H2 : all_chars no_digit (replace1 "%" "" (replace1 "," "." v1)) = true)
      by (apply all_chars_replace1; [reflexivity|];
          apply all_chars_replace1; [reflexivity|exact H1]).
    now rewrite sub_gap_no_digit. }
  destruct (clean_token value) as [is_trace v]. cbn [snd] in Hc.
  destruct (has_char "." v).
  - rewrite (float_of_string_no_digit v Hc).
    apply infer_from_no_digit. now apply all_chars_replace1.
  - now apply infer_from_no_digit.
Qed.

Lemma normalize_number_needs_digit_witness :
  normalize_number "< n.d. %" = None.
Proof. apply normalize_number_needs_digit. reflexivity. Defined.

End Unparseable.

(** ** Whole numbers and the decimal separator *)

Section WholeNumbers.

Lemma fdiv_range (num k : Z) :
  0 < k -> 0 <= num < 10 * k ->
  (0 <= fdiv (of_int num) (inject_Z k) /\ fdiv (of_int num) (inject_Z k) < 10)%Q.
Proof.
  intros Hk [H0 H1]. unfold fdiv, of_int. rewrite Qred_correct.
  assert (Hkq : (0 < inject_Z k)%Q) by (change 0%Q with (inject_Z 0); now rewrite <- Zlt_Qlt).
  split.
  - apply Qle_shift_div_l; [exact Hkq|]. rewrite Qmult_0_l.
    change 0%Q with (inject_Z 0). now rewrite <- Zle_Qle.
  - apply Qlt_shift_div_r; [exact Hkq|].
    change 10%Q with (inject_Z 10). rewrite <- inject_Z_mult, <- Zlt_Qlt. lia.
Qed.

Lemma of_int_range (num : Z) :
  0 <= num < 10 -> (0 <= of_int num /\ of_int num < 10)%Q.
Proof.
  intros [H0 H1]. unfold of_int. split.
  - change 0%Q with (inject_Z 0). now rewrite <- Zle_Qle.
  - change 10%Q with (inject_Z 10). now rewrite <- Zlt_Qlt.
Qed.

(** On a string of digits, with or without leading zeros, the inference
    for a non-trace value answers with a number from 0 up to, and not
    including, 10. *)
Lemma infer_digits_range (s : string) :
  all_chars is_digit s = true -> s <> "" ->
  exists v, infer_decimal_placement s false = Some v /\ (0 <= v /\ v < 10)%Q.
Proof.
  intros H Hne. unfold infer_decimal_placement, sub_non_numeric.
  rewrite filter_chars_all.
  2:{ eapply all_chars_impl; [|exact H]. intros x Hx.
      unfold digit_or_minus. now rewrite Hx. }
  assert (String.eqb s "-" = false) as ->.
  { apply String.eqb_neq. intros ->. discriminate. }
  assert (is_empty s = false) as -> by (destruct s; [congruence|reflexivity]).
  cbn [orb]. rewrite int_of_digits by assumption.
  remember (digits_value s) as num eqn:Enum.
  assert (Hb : 0 <= num < 10 ^ slen s).
  { pose proof (digits_acc_bounds s H 0) as B. unfold digits_value in Enum.
    rewrite <- Enum in B. lia. }
  assert (Hlen : 1 <= slen s).
  { destruct s; [congruence|]. rewrite slen_cons. pose proof (slen_nonneg s). lia. }
  repeat match goal with
    | |- context [?a <? ?b] => destruct (Z.ltb_spec a b)
    | |- context [?a =? ?b] => destruct (Z.eqb_spec a b)
    end; try lia; eexists; (split; [reflexivity|]);
    try (apply of_int_range; lia);
    try (apply (fdiv_range num 1); lia);
    try (apply (fdiv_range num 10); lia);
    try (apply (fdiv_range num 100); lia);
    try (apply (fdiv_range num 1000); lia);
    try (split; [apply Qle_refl|reflexivity]).
  apply fdiv_range.
  - apply Z.pow_pos_nonneg; lia.
  - rewrite <- Z.pow_succ_r by lia. replace (Z.succ (slen s - 1)) with (slen s) by lia.
    exact Hb.
Qed.

(** With a limit on [int()] that the text respects, the inference never
    answers [None] on a string of digits, whatever the arithmetic. *)
Lemma infer_digits_answer (A : Machine.arithmetic) (s : string) :
  all_chars is_digit s = true -> s <> "" ->
  (forall k, Machine.int_max_str_digits A = Some k -> slen s <= k) ->
  Machine.infer_decimal_placement A s false <> Machine.Unparseable.
Proof.
  intros H Hne Hk. unfold Machine.infer_decimal_placement, sub_non_numeric.
  rewrite filter_chars_all.
  2:{ eapply all_chars_impl; [|exact H]. intros x Hx.
      unfold digit_or_minus. now rewrite Hx. }
  assert (String.eqb s "-" = false) as ->.
  { apply String.eqb_neq. intros ->. discriminate. }
  assert (is_empty s = false) as -> by (destruct s; [congruence|reflexivity]).
  cbn [orb]. unfold Machine.int_of_string_within.
  rewrite int_of_digits by assumption.
  assert (Hin : match Machine.int_max_str_digits A with
                | Some k =>
                    if k <? slen (filter_chars is_digit s)
                    then None else Some (digits_value s)
                | None => Some (digits_value s)
                end = Some (digits_value s)).
  { destruct (Machine.int_max_str_digits A) as [k|]; [|reflexivity].
    rewrite (filter_chars_all _ _ H).
    destruct (Z.ltb_spec k (slen s)); [|reflexivity].
    specialize (Hk k eq_refl). lia. }
  rewrite Hin. cbv zeta. unfold Machine.computed.
  repeat match goal with
         | |- context [if ?c then _ else _] => destruct c
         end;
    match goal with
    | |- context [match ?o with Some _ => _ | None => _ end] => destruct o
    | _ => idtac
    end; discriminate.
Qed.

(** A cell that holds only digits is normalised to a number from 0 to
    10: a whole percentage such as ["45"] or ["100"] is never kept as it
    is written.  The quotient is below 10 before rounding, so that a float
    may reach 10 but not exceed it.  The bound on the length keeps the
    text within what [int()] converts by default: under a limit of at
    least 4300 digits, or none, the answer is never [None], whatever the
    arithmetic. *)
Theorem normalize_number_digits_below_ten (s : string) :
  all_chars is_digit s = true -> s <> "" -> slen s <= 4300 ->
  (exists v, normalize_number s = Some v /\ (0 <= v /\ v <= 10)%Q)
  /\ (forall A : Machine.arithmetic,
        (forall k, Machine.int_max_str_digits A = Some k -> 4300 <= k) ->
        Machine.normalize_number A s <> Machine.Unparseable).
Proof.
  intros H Hne Hlen.
  assert (Hplain : all_chars plain_char s = true)
    by (eapply all_chars_impl; [apply digit_plain|exact H]).
  assert (Hkeep : sub_non_numeric s = s).
  { unfold sub_non_numeric. apply filter_chars_all.
    eapply all_chars_impl; [|exact H]. intros x Hx.
    unfold digit_or_minus. now rewrite Hx. }
  assert (Hminus : String.eqb s "-" = false).
  { apply String.eqb_neq. intros ->. discriminate. }
  assert (Hs : is_empty s = false) by (destruct s; [congruence|reflexivity]).
  split.
  - unfold normalize_number. rewrite Hs.
    rewrite (clean_token_plain s Hplain).
    rewrite (has_char_none is_digit "." s eq_refl H).
    unfold infer_from. rewrite Hkeep, Hs, Hminus. cbn [orb].
    destruct (infer_digits_range s H Hne) as (v & Hv & H0 & H10).
    exists v. split; [exact Hv|]. split; [exact H0|]. now apply Qlt_le_weak.
  - intros A Hk. unfold Machine.normalize_number. rewrite Hs.
    rewrite (clean_token_plain s Hplain).
    rewrite (has_char_none is_digit "." s eq_refl H).
    unfold Machine.infer_from. rewrite Hkeep, Hs, Hminus. cbn [orb].
    apply infer_digits_answer; [exact H|exact Hne|].
    intros k E. specialize (Hk k E). lia.
Qed.

Lemma normalize_number_digits_below_ten_witness :
  exists v, normalize_number "100" = Some v /\ (0 <= v /\ v <= 10)%Q.
Proof.
  apply (normalize_number_digits_below_ten "100");
    [reflexivity|discriminate|vm_compute; discriminate].
Defined.

End WholeNumbers.

Section DecimalComma.

Lemma comma_cons (c : ascii) (r : string) :
  replace1 "," "." (String c r) = String (comma_to_dot c) (replace1 "," "." r).
Proof.
  cbn [replace1]. unfold comma_to_dot. destruct (Ascii.eqb c ","); reflexivity.
Qed.

Lemma comma_to_dot_space (c : ascii) : is_space (comma_to_dot c) = is_space c.
Proof.
  unfold comma_to_dot. destruct (Ascii.eqb c ",") eqn:E; [|reflexivity].
  apply Ascii.eqb_eq in E. now subst.
Qed.

Lemma comma_to_dot_less (c : ascii) :
  Ascii.eqb "<" (comma_to_dot c) = Ascii.eqb "<" c.
Proof.
  unfold comma_to_dot. destruct (Ascii.eqb c ",") eqn:E; [|reflexivity].
  apply Ascii.eqb_eq in E. now subst.
Qed.

Lemma comma_to_dot_idem (c : ascii) : comma_to_dot (comma_to_dot c) = comma_to_dot c.
Proof.
  unfold comma_to_dot. destruct (Ascii.eqb c ",") eqn:E; [reflexivity|].
  now rewrite E.
Qed.

Lemma comma_is_empty (s : string) : is_empty (replace1 "," "." s) = is_empty s.
Proof. destruct s; [reflexivity|]. now rewrite comma_cons. Qed.

Lemma comma_lstrip (s : string) :
  lstrip_by is_space (replace1 "," "." s) = replace1 "," "." (lstrip_by is_space s).
Proof.
  induction s as [|c s IH]; [reflexivity|].
  rewrite comma_cons. cbn [lstrip_by]. rewrite comma_to_dot_space.
  destruct (is_space c); [exact IH|]. now rewrite comma_cons.
Qed.

Lemma comma_rstrip (s : string) :
  rstrip_by is_space (replace1 "," "." s) = replace1 "," "." (rstrip_by is_space s).
Proof.
  induction s as [|c s IH]; [reflexivity|].
  rewrite comma_cons. cbn [rstrip_by]. rewrite comma_to_dot_space, IH, comma_is_empty.
  destruct (is_space c && is_empty (rstrip_by is_space s)); [reflexivity|].
  now rewrite comma_cons.
Qed.

Lemma comma_strip (s : string) : strip (replace1 "," "." s) = replace1 "," "." (strip s).
Proof. unfold strip. now rewrite comma_lstrip, comma_rstrip. Qed.

Lemma comma_startswith (s : string) : startswith (replace1 "," "." s) "<" = startswith s "<".
Proof.
  destruct s as [|c s]; [reflexivity|]. rewrite comma_cons.
  change (Ascii.eqb "<" (comma_to_dot c) && startswith (replace1 "," "." s) ""
          = Ascii.eqb "<" c && startswith s "").
  rewrite comma_to_dot_less.
  assert (E : forall x, startswith x "" = true) by (now intros []).
  now rewrite !E.
Qed.

Lemma comma_tail (s : string) : Str.tail (replace1 "," "." s) = replace1 "," "." (Str.tail s).
Proof. destruct s as [|c s]; [reflexivity|]. now rewrite comma_cons. Qed.

Lemma comma_idem (s : string) : replace1 "," "." (replace1 "," "." s) = replace1 "," "." s.
Proof.
  induction s as [|c s IH]; [reflexivity|].
  now rewrite !comma_cons, comma_to_dot_idem, IH.
Qed.

(** The decimal comma and the decimal point are interchangeable: writing
    every comma of a cell as a dot does not change what the normaliser
    returns. *)
Theorem normalize_number_comma_as_dot (value : string) :
  normalize_number (replace1 "," "." value) = normalize_number value.
Proof.
  unfold normalize_number. rewrite comma_is_empty.
  assert (H : clean_token (replace1 "," "." value) = clean_token value).
  { unfold clean_token. rewrite comma_strip, comma_startswith.
    destruct (startswith (strip value) "<").
    - now rewrite comma_tail, comma_strip, comma_idem.
    - now rewrite comma_idem. }
  now rewrite H.
Qed.

End DecimalComma.

(** ** What the extractors emit *)

Section Emitted.
Import Loop.

Lemma strategy1_symbol (u : string) (seen : gset string) (row : list string) (e : string) :
  fst (strategy1 u seen row) = Some e -> In e PRIORITY_ELEMENTS.
Proof.
  unfold strategy1. destruct (2 <=? length row)%nat; [|discriminate].
  destruct (fresh seen _).
  - destruct (flat_map _ _) as [|c cs]; [apply extract_symbol_member|].
    destruct (List.filter _ _); apply extract_symbol_member.
  - apply extract_symbol_member.
Qed.

Lemma strategy2_symbol (seen : gset string) (row : list string)
    (cells : list (nat * string)) :
  forall st,
    (forall e, fst st = Some e -> In e PRIORITY_ELEMENTS) ->
    forall e, fst (strategy2 seen row cells st) = Some e -> In e PRIORITY_ELEMENTS.
Proof.
  induction cells as [|[cell_idx cell] rest IH]; intros st Hst; [exact Hst|].
  cbn [strategy2]. destruct (fresh seen (extract_element_symbol cell)); [|now apply IH].
  match goal with |- context [match ?val with Some _ => _ | None => _ end] =>
    destruct val end.
  - cbn [fst]. apply extract_symbol_member.
  - apply IH. cbn [fst]. apply extract_symbol_member.
Qed.

Lemma strategy3_symbol (seen : gset string) (row : list string)
    (headers : list (nat * string)) :
  forall st,
    (forall e, fst st = Some e -> In e PRIORITY_ELEMENTS) ->
    forall e, fst (strategy3 seen row headers st) = Some e -> In e PRIORITY_ELEMENTS.
Proof.
  induction headers as [|[col_idx header] rest IH]; intros st Hst; [exact Hst|].
  cbn [strategy3]. destruct (_ && _); [|now apply IH].
  destruct (normalize_number _).
  - cbn [fst]. apply extract_symbol_member.
  - apply IH. cbn [fst]. apply extract_symbol_member.
Qed.

Lemma parse_row_symbol (u : string) (headers : list string)
    (seen : gset string) (row : list string) (e : string) :
  fst (parse_row u headers seen row) = Some e -> In e PRIORITY_ELEMENTS.
Proof.
  unfold parse_row.
  set (st1 := strategy1 u seen row).
  assert (H1 : forall x, fst st1 = Some x -> In x PRIORITY_ELEMENTS)
    by (intros x; apply strategy1_symbol).
  set (st2 := if none_or_seen seen (fst st1)
              then strategy2 seen row (enumerate row) st1 else st1).
  assert (H2 : forall x, fst st2 = Some x -> In x PRIORITY_ELEMENTS).
  { unfold st2. destruct (none_or_seen seen (fst st1)); [|exact H1].
    now apply strategy2_symbol. }
  destruct (_ && _); [|apply H2]. now apply strategy3_symbol.
Qed.

Lemma row_step_labelled (u : string) (headers : list string)
    (st : state) (row : list string) :
  Forall (labelled u) (fst st) ->
  Forall (labelled u) (fst (row_step u headers st row)).
Proof.
  destruct st as [acc seen]. intros H. unfold row_step.
  destruct (_ || _); [exact H|].
  destruct (parse_row u headers seen row) as [[e|] [v|]] eqn:E; try exact H.
  destruct (_ && _); [|exact H].
  cbn [fst]. apply Forall_app. split; [exact H|].
  constructor; [|constructor]. split; [|reflexivity].
  cbn [element_symbol]. apply (parse_row_symbol u headers seen row).
  now rewrite E.
Qed.

Lemma cell_step_labelled (u : string) (st : state) (cell : string) :
  Forall (labelled u) (fst st) ->
  Forall (labelled u) (fst (cell_step u st cell)).
Proof.
  destruct st as [acc seen]. intros H. unfold cell_step.
  destruct (is_empty (strip cell)); [exact H|].
  destruct (extract_element_symbol (strip cell)) as [e|] eqn:He; [|exact H].
  destruct (fresh seen (Some e)); [|exact H].
  destruct (search_number_range (strip cell)); [|exact H].
  match goal with |- context [match ?val with Some _ => _ | None => _ end] =>
    destruct val end; [|exact H].
  destruct (is_valid_composition_value _ u); [|exact H].
  cbn [fst]. apply Forall_app. split; [exact H|].
  constructor; [|constructor]. split; [|reflexivity].
  cbn [element_symbol]. now apply (extract_symbol_member (strip cell)).
Qed.

Lemma post_process_labelled (u : string) (l : list record) :
  Forall (labelled u) l -> Forall (labelled u) (post_process l).
Proof.
  intros H. unfold post_process. destruct l as [|r l]; [constructor|].
  set (items := r :: l) in *.
  destruct (fltb 50 _); [|destruct (fltb 20 _)]; [| |exact H].
  - apply List.Forall_map. eapply List.Forall_impl; [|exact H]. now intros x Hx.
  - apply List.Forall_map. eapply List.Forall_impl; [|exact H].
    intros x Hx. now destruct (fltb 50 (value x)).
Qed.

(** The records of the primary extractor: a permutation of the corrected
    kept records, no symbol twice, all checked and labelled. *)
Lemma primary_output (g : Grid) :
  exists u, In u Config.COMPOSITION_UNITS
    /\ NoDup (map element_symbol (parse_table_to_composition_data g))
    /\ Forall checked (parse_table_to_composition_data g)
    /\ Forall (labelled u) (parse_table_to_composition_data g).
Proof.
  unfold parse_table_to_composition_data.
  destruct (length g <? 2)%nat.
  { exists "wt.%". repeat split; try constructor. cbn. auto. }
  set (headers := nth (find_header 0 (firstn 3 g)) g []).
  set (u := extract_unit (lower (join " " headers))).
  exists u. split; [apply extract_unit_member|].
  destruct (kept_records_invariant g) as [Hnd Hck].
  assert (Hlab : Forall (labelled u) (kept_records g)).
  { unfold kept_records. fold headers. fold u.
    apply (fold_left_preserves (fun st => Forall (labelled u) (fst st))).
    - intros st row. apply row_step_labelled.
    - constructor. }
  pose proof (sort_by_priority_perm (post_process (kept_records g))) as P.
  split; [|split].
  - rewrite (Permutation_map element_symbol P), post_process_symbols. exact Hnd.
  - eapply Permutation_Forall; [symmetry; exact P|]. now apply post_process_checked.
  - eapply Permutation_Forall; [symmetry; exact P|]. now apply post_process_labelled.
Qed.

Lemma fallback_output (g : Grid) :
  exists u, In u Config.COMPOSITION_UNITS
    /\ NoDup (map element_symbol (parse_table_simple_heuristic g))
    /\ Forall checked (parse_table_simple_heuristic g)
    /\ Forall (labelled u) (parse_table_simple_heuristic g).
Proof.
  unfold parse_table_simple_heuristic.
  set (u := extract_unit (lower (join " " (map (join " ") g)))).
  exists u. split; [apply extract_unit_member|].
  destruct (scanned_records_invariant g) as [Hnd Hck].
  assert (Hlab : Forall (labelled u) (scanned_records g)).
  { unfold scanned_records. fold u.
    apply (fold_left_preserves (fun st => Forall (labelled u) (fst st))).
    - intros st row Hst.
      apply (fold_left_preserves (fun st => Forall (labelled u) (fst st)));
        [|exact Hst].
      intros st' cell. apply cell_step_labelled.
    - constructor. }
  pose proof (sort_by_priority_perm (scanned_records g)) as P.
  split; [|split].
  - now rewrite (Permutation_map element_symbol P).
  - eapply Permutation_Forall; [symmetry; exact P|]. exact Hck.
  - eapply Permutation_Forall; [symmetry; exact P|]. exact Hlab.
Qed.

End Emitted.

Section EmittedRecords.
Import Loop.

Lemma unit_and_range (u : string) (l : list record) :
  In u Config.COMPOSITION_UNITS ->
  Forall checked l -> Forall (labelled u) l ->
  Forall (fun r => unit r = u /\ (- (1 # 10) < value r /\ value r <= 100)%Q) l.
Proof.
  intros Hu Hc Hl.
  assert (Hp : str_in u percent_units = true).
  { cbn in Hu. repeat destruct Hu as [<-|Hu]; try reflexivity. destruct Hu. }
  rewrite List.Forall_forall in *. intros r Hr.
  destruct (Hl r Hr) as [_ Hunit]. split; [exact Hunit|].
  apply (percent_bounds (value r) u Hp). rewrite <- Hunit. now apply Hc.
Qed.

(** All the records of one extraction carry the same unit, one of the
    five configured percentage units, and a value above -0.1 and at most
    100: the branch of the plausibility check for other units is never
    the one that admits a record. *)
Theorem emitted_unit_and_range (table_data : Grid) :
  (exists u, In u Config.COMPOSITION_UNITS
     /\ Forall (fun r => unit r = u /\ (- (1 # 10) < value r /\ value r <= 100)%Q)
          (parse_table_to_composition_data table_data))
  /\ (exists u, In u Config.COMPOSITION_UNITS
        /\ Forall (fun r => unit r = u /\ (- (1 # 10) < value r /\ value r <= 100)%Q)
             (parse_table_simple_heuristic table_data)).
Proof.
  split.
  - destruct (primary_output table_data) as (u & Hu & _ & Hc & Hl).
    exists u. split; [exact Hu|]. now apply unit_and_range.
  - destruct (fallback_output table_data) as (u & Hu & _ & Hc & Hl).
    exists u. split; [exact Hu|]. now apply unit_and_range.
Qed.

Lemma at_most_eight (u : string) (l : list record) :
  NoDup (map element_symbol l) -> Forall (labelled u) l ->
  Forall (fun r => In (element_symbol r) PRIORITY_ELEMENTS) l
  /\ (length l <= 8)%nat.
Proof.
  intros Hnd Hl.
  assert (H : Forall (fun r => In (element_symbol r) PRIORITY_ELEMENTS) l)
    by (eapply List.Forall_impl; [|exact Hl]; now intros r [Hr _]).
  split; [exact H|].
  rewrite <- (length_map element_symbol).
  change 8%nat with (length PRIORITY_ELEMENTS).
  apply NoDup_incl_length; [now apply NoDup_ListNoDup|].
  intros e He. apply in_map_iff in He as (r & <- & Hr).
  rewrite List.Forall_forall in H. now apply H.
Qed.

(** Both extractors return records for priority elements only, and at
    most eight of them. *)
Theorem emitted_symbols_bounded (table_data : Grid) :
  (Forall (fun r => In (element_symbol r) PRIORITY_ELEMENTS)
     (parse_table_to_composition_data table_data)
   /\ (length (parse_table_to_composition_data table_data) <= 8)%nat)
  /\ (Forall (fun r => In (element_symbol r) PRIORITY_ELEMENTS)
        (parse_table_simple_heuristic table_data)
      /\ (length (parse_table_simple_heuristic table_data) <= 8)%nat).
Proof.
  split.
  - destruct (primary_output table_data) as (u & _ & Hnd & _ & Hl).
    now apply (at_most_eight u).
  - destruct (fallback_output table_data) as (u & _ & Hnd & _ & Hl).
    now apply (at_most_eight u).
Qed.

Lemma element_order_inj (a b : string) :
  In a PRIORITY_ELEMENTS -> In b PRIORITY_ELEMENTS ->
  element_order a = element_order b -> a = b.
Proof.
  intros Ha Hb. cbn in Ha, Hb.
  repeat destruct Ha as [<-|Ha]; try destruct Ha;
    repeat destruct Hb as [<-|Hb]; try destruct Hb;
    vm_compute; intros; congruence.
Qed.

Lemma strictly_sorted (u : string) (l : list record) :
  StronglySorted (key_le (fun x => element_order (element_symbol x))) l ->
  NoDup (map element_symbol l) -> Forall (labelled u) l ->
  StronglySorted
    (fun a b => element_order (element_symbol a) < element_order (element_symbol b)) l.
Proof.
  induction 1 as [|x l Hs IH Hx]; intros Hnd Hl; [constructor|].
  cbn [map] in Hnd. apply NoDup_cons in Hnd as [Hnin Hnd].
  inversion Hl as [|? ? [Hxp _] Hl']; subst.
  constructor; [auto|].
  rewrite List.Forall_forall in *. intros y Hy.
  specialize (Hx y Hy). unfold key_le in Hx.
  destruct (Hl' y Hy) as [Hyp _].
  assert (element_order (element_symbol x) <> element_order (element_symbol y)).
  { intros E. apply element_order_inj in E; [|assumption..].
    apply Hnin. rewrite E. apply list_elem_of_In, in_map, Hy. }
  lia.
Qed.

(** The records come out in the priority order Al, V, Fe, C, N, O, Y, H,
    strictly: the position of the symbol in the list increases from one
    record to the next. *)
Theorem emitted_in_priority_order (table_data : Grid) :
  StronglySorted
    (fun a b => element_order (element_symbol a) < element_order (element_symbol b))
    (parse_table_to_composition_data table_data)
  /\ StronglySorted
       (fun a b => element_order (element_symbol a) < element_order (element_symbol b))
       (parse_table_simple_heuristic table_data).
Proof.
  split.
  - destruct (primary_output table_data) as (u & _ & Hnd & _ & Hl).
    apply (strictly_sorted u); [|exact Hnd|exact Hl].
    unfold parse_table_to_composition_data.
    destruct (length table_data <? 2)%nat; [constructor|].
    apply sort_by_sorted.
  - destruct (fallback_output table_data) as (u & _ & Hnd & _ & Hl).
    apply (strictly_sorted u); [|exact Hnd|exact Hl].
    apply sort_by_sorted.
Qed.

End EmittedRecords.

(** ** Strategy 1: which number is taken *)

Section Leftmost.

Lemma sort_by_sorted_id {A K} (lt : K -> K -> bool) (key : A -> K) (l : list A) :
  StronglySorted (fun a b => lt (key b) (key a) = false) l ->
  sort_by lt key l = l.
Proof.
  induction 1 as [|x l Hs IH Hx]; [reflexivity|].
  cbn [sort_by fold_right]. fold (sort_by lt key l). rewrite IH.
  destruct l as [|y l']; [reflexivity|].
  cbn [insert_by]. inversion Hx as [|? ? Hy _]; subst. now rewrite Hy.
Qed.

Lemma StronglySorted_filter_keep {A} (R : A -> A -> Prop) (p : A -> bool) (l : list A) :
  StronglySorted R l -> StronglySorted R (List.filter p l).
Proof.
  induction 1 as [|x l Hs IH Hx]; cbn [List.filter]; [constructor|].
  destruct (p x); [|exact IH]. constructor; [exact IH|].
  rewrite List.Forall_forall in *. intros y Hy.
  apply filter_In in Hy as [Hy _]. auto.
Qed.

Lemma StronglySorted_weaken {A} (R S : A -> A -> Prop) (l : list A) :
  StronglySorted R l -> (forall a b, R a b -> S a b) -> StronglySorted S l.
Proof.
  intros H HRS. induction H as [|x l Hs IH Hx]; constructor; [exact IH|].
  eapply List.Forall_impl; [|exact Hx]. intros b. apply HRS.
Qed.

Lemma candidates_from (i : nat) (cols : list string) :
  let c := flat_map (fun '(col_idx, col) =>
                       match normalize_number col with
                       | Some num => [(num, S col_idx)]
                       | None => []
                       end) (enumerate_from i cols) in
  map fst c = parsed_values cols
  /\ Forall (fun x => (i < snd x)%nat) c
  /\ StronglySorted (fun a b => (snd a < snd b)%nat) c.
Proof.
  revert i. induction cols as [|col cols IH]; intros i.
  - cbn. repeat split; constructor.
  - cbn [enumerate_from flat_map parsed_values].
    destruct (IH (S i)) as (Hm & Hlt & Hs).
    fold (parsed_values cols).
    assert (Hlt' : Forall (fun x => (i < snd x)%nat)
              (flat_map (fun '(col_idx, col0) =>
                           match normalize_number col0 with
                           | Some num => [(num, S col_idx)]
                           | None => []
                           end) (enumerate_from (S i) cols))).
    { eapply List.Forall_impl; [|exact Hlt]. cbn. intros. lia. }
    destruct (normalize_number col) as [num|]; cbn [app map].
    + split; [now rewrite Hm|]. split.
      * constructor; [cbn; lia|exact Hlt'].
      * constructor; [exact Hs|]. exact Hlt.
    + split; [exact Hm|]. split; [exact Hlt'|exact Hs].
Qed.

Lemma key_lt_increasing (h : Q -> Q) (a b : Q * nat) :
  (snd a < snd b)%nat ->
  key_lt (snd b, h (fst b)) (snd a, h (fst a)) = false.
Proof.
  intros H. unfold key_lt. cbn [fst snd].
  destruct (Nat.ltb_spec (snd b) (snd a)); [lia|].
  destruct (Nat.eqb_spec (snd b) (snd a)); [lia|]. reflexivity.
Qed.

Lemma head_filter_find (p : Q -> bool) (c : list (Q * nat)) :
  fst <$> head (List.filter (fun '(v, idx) => p v) c) = List.find p (map fst c).
Proof.
  induction c as [|[v idx] c IH]; [reflexivity|].
  cbn [List.filter map List.find fst]. destruct (p v); [reflexivity|exact IH].
Qed.

Lemma head_map_fst (c : list (Q * nat)) : fst <$> head c = head (map fst c).
Proof. now destruct c. Qed.

(** When the first cell names an element not seen yet, strategy 1 takes
    the leftmost later cell whose number passes the plausibility check
    and, when there is none, the leftmost cell that holds a number: the
    two sorts never reorder the candidates.  The cells are short, so that
    every one of them is normalised without an overflow. *)
Theorem strategy1_leftmost (u : string) (seen : gset string) (row : list string) :
  (2 <= length row)%nat ->
  Forall short_cell row ->
  fresh seen (extract_element_symbol (nth 0 row "")) = true ->
  strategy1 u seen row
  = (extract_element_symbol (nth 0 row ""),
     match List.find (fun v => is_valid_composition_value v u)
             (parsed_values (List.tail row)) with
     | Some v => Some v
     | None => head (parsed_values (List.tail row))
     end).
Proof.
  intros Hlen _ Hfresh. unfold strategy1.
  apply Nat.leb_le in Hlen. rewrite Hlen, Hfresh.
  destruct (candidates_from 0 (List.tail row)) as (Hm & _ & Hs).
  fold (@enumerate string (List.tail row)) in Hm, Hs.
  set (c := flat_map _ (enumerate (List.tail row))) in *.
  rewrite <- Hm.
  pose proof (head_filter_find (fun v => is_valid_composition_value v u) c) as Hf.
  rewrite <- Hf.
  destruct c as [|x c'] eqn:Ec; [reflexivity|]. rewrite <- Ec in *.
  destruct (List.filter _ c) as [|y ys] eqn:Ev.
  - cbn [head fmap option_fmap option_map].
    rewrite sort_by_sorted_id; [now rewrite head_map_fst|].
    eapply StronglySorted_weaken; [exact Hs|].
    intros a b Hab. now apply (key_lt_increasing Qabs).
  - rewrite <- Ev. rewrite sort_by_sorted_id.
    + rewrite Ev. reflexivity.
    + eapply StronglySorted_weaken; [apply StronglySorted_filter_keep, Hs|].
      intros a b Hab. now apply (key_lt_increasing (fun v => v)).
Qed.

Lemma strategy1_leftmost_witness :
  strategy1 "wt.%" ∅ ["Fe"; "250.5"; "0.19"]
  = (extract_element_symbol (nth 0 ["Fe"; "250.5"; "0.19"] ""),
     match List.find (fun v => is_valid_composition_value v "wt.%")
             (parsed_values (List.tail ["Fe"; "250.5"; "0.19"])) with
     | Some v => Some v
     | None => head (parsed_values (List.tail ["Fe"; "250.5"; "0.19"]))
     end).
Proof.
  apply strategy1_leftmost;
    [simpl; lia
    |repeat constructor; vm_compute; discriminate
    |vm_compute; reflexivity].
Defined.

End Leftmost.

(** ** The reconstructor loses nothing *)

Section Conservation.

Lemma find_row_near (y : Z) (keys : list Z) (k : Z) :
  find_row y keys = Some k -> Z.abs (y - k) < row_tolerance.
Proof.
  induction keys as [|row_y keys IH]; cbn [find_row]; [discriminate|].
  destruct (Z.ltb_spec (Z.abs (y - row_y)) row_tolerance); [|exact IH].
  now intros [= <-].
Qed.

Lemma append_to_perm (k : Z) (item : fragment) (rows : list (Z * list fragment)) :
  Permutation (flat_map snd (append_to k item rows)) (item :: flat_map snd rows).
Proof.
  induction rows as [|[k' items] rest IH]; cbn [append_to flat_map snd].
  - reflexivity.
  - destruct (k =? k'); cbn [flat_map snd].
    + rewrite <- app_assoc. symmetry. apply Permutation_middle.
    + rewrite IH. symmetry. apply Permutation_middle.
Qed.

Lemma append_to_near (k : Z) (item : fragment) (rows : list (Z * list fragment)) :
  Z.abs (y_center item - k) < row_tolerance ->
  Forall (fun row => Forall (fun it => Z.abs (y_center it - fst row) < row_tolerance)
                       (snd row)) rows ->
  Forall (fun row => Forall (fun it => Z.abs (y_center it - fst row) < row_tolerance)
                       (snd row)) (append_to k item rows).
Proof.
  intros Hk. induction 1 as [|[k' items] rest Hrow Hrest IH]; cbn [append_to].
  - constructor; [|constructor]. cbn. constructor; [exact Hk|constructor].
  - destruct (Z.eqb_spec k k') as [->|Hne].
    + constructor; [|exact Hrest]. cbn [fst snd] in *.
      apply Forall_app. split; [exact Hrow|]. constructor; [exact Hk|constructor].
    + constructor; [exact Hrow|exact IH].
Qed.

Lemma assign_row_near (rows : list (Z * list fragment)) (item : fragment) :
  Forall (fun row => Forall (fun it => Z.abs (y_center it - fst row) < row_tolerance)
                       (snd row)) rows ->
  Forall (fun row => Forall (fun it => Z.abs (y_center it - fst row) < row_tolerance)
                       (snd row)) (assign_row rows item).
Proof.
  intros H. unfold assign_row. apply append_to_near; [|exact H].
  destruct (find_row (y_center item) (map fst rows)) as [k|] eqn:E.
  - cbn. now apply find_row_near in E.
  - cbn. rewrite Z.sub_diag. reflexivity.
Qed.

Lemma fold_assign_perm (l : list fragment) :
  forall rows,
    Permutation (flat_map snd (fold_left assign_row l rows))
                (flat_map snd rows ++ l).
Proof.
  induction l as [|item l IH]; intros rows; cbn [fold_left].
  - now rewrite app_nil_r.
  - rewrite IH. unfold assign_row at 1. rewrite append_to_perm.
    apply (Permutation_middle (flat_map snd rows) l item).
Qed.

Lemma sorted_rows_perm (ocr_results : list fragment) :
  Permutation (flat_map snd (sorted_rows ocr_results)) ocr_results.
Proof.
  assert (P : Permutation (sorted_rows ocr_results) (group_rows ocr_results))
    by apply sort_by_perm.
  rewrite (Permutation_flat_map snd P). unfold group_rows.
  now rewrite fold_assign_perm.
Qed.

(** Every fragment lands in exactly one row, and its vertical centre is
    less than 25 pixels away from the anchor of that row. *)
Theorem rows_conserve_fragments (ocr_results : list fragment) :
  Permutation (flat_map snd (sorted_rows ocr_results)) ocr_results
  /\ Forall (fun row =>
               Forall (fun it => Z.abs (y_center it - fst row) < row_tolerance)
                      (snd row))
            (sorted_rows ocr_results).
Proof.
  assert (P : Permutation (sorted_rows ocr_results) (group_rows ocr_results))
    by apply sort_by_perm.
  split.
  - rewrite (Permutation_flat_map snd P). unfold group_rows.
    now rewrite fold_assign_perm.
  - eapply Permutation_Forall; [symmetry; exact P|]. unfold group_rows.
    apply (fold_left_preserves
             (fun rows => Forall (fun row =>
                Forall (fun it => Z.abs (y_center it - fst row) < row_tolerance)
                       (snd row)) rows)).
    + intros rows item. apply assign_row_near.
    + constructor.
Qed.

Lemma rows_at_most_items (rows : list (Z * list fragment)) :
  Forall (fun row => snd row <> []) rows ->
  (length rows <= length (flat_map snd rows))%nat.
Proof.
  induction 1 as [|[k items] rest Hne _ IH]; cbn [flat_map snd length]; [lia|].
  rewrite length_app. cbn [snd] in Hne. destruct items; [congruence|]. cbn. lia.
Qed.

Lemma grid_of_rows (ocr_results : list fragment) :
  detect_table_regions ocr_results
  = map (fun row => merge_cells None [] (sorted_items (snd row)))
        (sorted_rows ocr_results)
  /\ Forall (fun row => snd row <> []) (sorted_rows ocr_results).
Proof.
  destruct (group_rows_wf ocr_results) as [_ Hne].
  assert (Hne' : Forall (fun row => snd row <> []) (sorted_rows ocr_results)).
  { eapply Permutation_Forall; [|exact Hne]. symmetry. apply sort_by_perm. }
  split; [|exact Hne'].
  unfold detect_table_regions. destruct ocr_results; [reflexivity|].
  now apply no_empty_row.
Qed.

(** The grid has no empty row, one row for each anchor, and never more
    rows than there are fragments. *)
Theorem grid_shape (ocr_results : list fragment) :
  Forall (fun row => row <> []) (detect_table_regions ocr_results)
  /\ length (detect_table_regions ocr_results) = length (sorted_rows ocr_results)
  /\ (length (detect_table_regions ocr_results) <= length ocr_results)%nat.
Proof.
  destruct (grid_of_rows ocr_results) as [-> Hne].
  split; [|split].
  - apply List.Forall_map. eapply List.Forall_impl; [|exact Hne].
    intros row Hrow. now apply row_cells_nonempty.
  - apply length_map.
  - rewrite length_map.
    rewrite <- (Permutation_length (sorted_rows_perm ocr_results)).
    now apply rows_at_most_items.
Qed.

Lemma append_last_filled (row_text : list string) (t : string) :
  Forall (fun c => c <> "") row_text ->
  Forall (fun c => c <> "") (append_last row_text t).
Proof.
  induction 1 as [|c rest Hc Hrest IH]; [constructor|].
  destruct rest as [|d rest'].
  - cbn. constructor; [|constructor].
    destruct c; [congruence|]. rewrite append_cons. discriminate.
  - change (append_last (c :: d :: rest') t) with (c :: append_last (d :: rest') t).
    constructor; [exact Hc|exact IH].
Qed.

Lemma merge_cells_filled (items : list fragment) :
  Forall (fun it => text it <> "") items ->
  forall prev row_text,
    Forall (fun c => c <> "") row_text ->
    Forall (fun c => c <> "") (merge_cells prev row_text items).
Proof.
  induction 1 as [|item rest Hi _ IH]; intros prev row_text H; [exact H|].
  cbn [merge_cells]. apply IH.
  destruct prev as [p|]; [destruct (_ <? _)|].
  - now apply append_last_filled.
  - apply Forall_app. split; [exact H|]. constructor; [exact Hi|constructor].
  - apply Forall_app. split; [exact H|]. constructor; [exact Hi|constructor].
Qed.

(** When no fragment has an empty text, as the recogniser guarantees, no
    cell of the grid is empty. *)
Theorem grid_cells_filled (ocr_results : list fragment) :
  Forall (fun it => text it <> "") ocr_results ->
  Forall (Forall (fun c => c <> "")) (detect_table_regions ocr_results).
Proof.
  intros H. destruct (grid_of_rows ocr_results) as [-> _].
  apply List.Forall_map. rewrite List.Forall_forall. intros row Hrow.
  apply merge_cells_filled; [|constructor].
  eapply Permutation_Forall; [symmetry; apply sort_by_perm|].
  rewrite List.Forall_forall in *. intros it Hit. apply H.
  apply (Permutation_in _ (sorted_rows_perm ocr_results)).
  apply in_flat_map. exists row. split; assumption.
Qed.

Lemma grid_cells_filled_witness :
  Forall (Forall (fun c => c <> ""))
    (detect_table_regions
       [mkFragment "Al" 0 10 20 10 90; mkFragment "6.5" 100 12 30 10 90]).
Proof.
  apply grid_cells_filled. repeat constructor; discriminate.
Defined.

End Conservation.

(** ** The page pipeline of [main] *)

Section Pages.
Import Loop Main.

Lemma page_records_cases (ocr_results : list fragment) :
  page_records ocr_results = []
  \/ (is_chemical_composition_table (detect_table_regions ocr_results) = true
      /\ (2 <= length (detect_table_regions ocr_results))%nat
      /\ (page_records ocr_results
            = parse_table_to_composition_data (detect_table_regions ocr_results)
          \/ page_records ocr_results
            = parse_table_simple_heuristic (detect_table_regions ocr_results))).
Proof.
  unfold page_records. destruct ocr_results as [|f fs]; [now left|].
  set (g := detect_table_regions (f :: fs)).
  destruct (Nat.ltb_spec (length g) 2); [now left|].
  destruct (is_chemical_composition_table g); [|now left].
  right. split; [reflexivity|]. split; [assumption|].
  destruct (length (parse_table_to_composition_data g) <? 3)%nat; auto.
Qed.

Lemma page_records_length (ocr_results : list fragment) :
  (length (page_records ocr_results) <= 8)%nat.
Proof.
  destruct (page_records_cases ocr_results) as [->|(_ & _ & [->| ->])].
  - cbn. lia.
  - destruct (primary_output (detect_table_regions ocr_results))
      as (u & _ & Hnd & _ & Hl).
    now destruct (at_most_eight u _ Hnd Hl).
  - destruct (fallback_output (detect_table_regions ocr_results))
      as (u & _ & Hnd & _ & Hl).
    now destruct (at_most_eight u _ Hnd Hl).
Qed.

(** What one page contributes: no element twice, priority elements only,
    at most eight records, one configured percentage unit for all of
    them, and values above -0.1 and at most 100. *)
Theorem page_records_sound (ocr_results : list fragment) :
  NoDup (map element_symbol (page_records ocr_results))
  /\ Forall (fun r => In (element_symbol r) PRIORITY_ELEMENTS) (page_records ocr_results)
  /\ (length (page_records ocr_results) <= 8)%nat
  /\ exists u, In u Config.COMPOSITION_UNITS
       /\ Forall (fun r => unit r = u /\ (- (1 # 10) < value r /\ value r <= 100)%Q)
            (page_records ocr_results).
Proof.
  destruct (page_records_cases ocr_results) as [->|(_ & _ & [->| ->])].
  - repeat split; try constructor. cbn. lia.
    exists "wt.%". split; [cbn; auto|constructor].
  - destruct (primary_output (detect_table_regions ocr_results))
      as (u & Hu & Hnd & Hc & Hl).
    destruct (at_most_eight u _ Hnd Hl) as [Hp Hlen].
    repeat split; try assumption.
    exists u. split; [exact Hu|]. now apply unit_and_range.
  - destruct (fallback_output (detect_table_regions ocr_results))
      as (u & Hu & Hnd & Hc & Hl).
    destruct (at_most_eight u _ Hnd Hl) as [Hp Hlen].
    repeat split; try assumption.
    exists u. split; [exact Hu|]. now apply unit_and_range.
Qed.

(** A page contributes nothing unless its grid shows at least two of the
    six keywords: element symbols, however many, do not make a page a
    composition table. *)
Theorem page_needs_keywords (ocr_results : list fragment) :
  keyword_matches (detect_table_regions ocr_results) < 2 ->
  page_records ocr_results = [].
Proof.
  intros H. destruct (page_records_cases ocr_results) as [E|(Hc & _)]; [exact E|].
  rewrite classifier_keywords_only in Hc. apply Z.leb_le in Hc. lia.
Qed.

Lemma page_needs_keywords_witness :
  page_records
    [mkFragment "Al" 0 10 20 10 90; mkFragment "6.5" 100 10 30 10 90;
     mkFragment "V" 0 60 20 10 90; mkFragment "4.1" 100 60 30 10 90;
     mkFragment "Fe" 0 110 20 10 90; mkFragment "0.19" 100 110 30 10 90] = [].
Proof. apply page_needs_keywords. vm_compute. reflexivity. Defined.

(** Over a whole document the records number at most eight per page, and
    nothing is extracted exactly when no page contributes. *)
Theorem document_records (pages : list (list fragment)) :
  (length (all_composition_data pages) <= 8 * length pages)%nat
  /\ (all_composition_data pages = []
      <-> Forall (fun page => page_records page = []) pages).
Proof.
  unfold all_composition_data. split.
  - induction pages as [|page pages IH]; cbn [flat_map length]; [lia|].
    rewrite length_app.
    pose proof (page_records_length page). lia.
  - induction pages as [|page pages IH]; cbn [flat_map].
    + split; [constructor|reflexivity].
    + split.
      * intros H. apply app_eq_nil in H as [H1 H2].
        constructor; [exact H1|now apply IH].
      * intros H. inversion H as [|? ? H1 H2]; subst.
        rewrite H1. now apply IH.
Qed.

End Pages.

(** ** The TOP / BOTTOM table *)

Section MatcertTable.
Import Matcert.

Lemma contains_one_char (c : ascii) (a b d : ascii) (rest : string) :
  contains (String c "") (String a (String b (String d rest))) = false.
Proof.
  cbn. now destruct (Ascii.eqb a c).
Qed.

Lemma header_step_short (cols : columns) (i : nat) (h : string) :
  h = "" \/ (exists c, h = String c "") -> header_step cols (i, h) = cols.
Proof.
  intros [->|[c ->]]; [reflexivity|].
  unfold header_step. now rewrite !contains_one_char.
Qed.

Lemma strip_one_char (c : ascii) :
  strip (String c "") = "" \/ strip (String c "") = String c "".
Proof.
  unfold strip. cbn. destruct (is_space c) eqn:E; cbn; rewrite ?E; auto.
Qed.

Lemma find_columns_chars (s : string) :
  find_columns (chars s) = mkColumns None None None None.
Proof.
  unfold find_columns, enumerate.
  generalize (mkColumns None None None None) as cols. generalize 0%nat as i.
  induction s as [|c s IH]; intros i cols; [reflexivity|].
  cbn [chars map enumerate_from fold_left].
  rewrite header_step_short; [apply IH|].
  change (lower (String c "")) with (String (lower_char c) "").
  destruct (strip_one_char (lower_char c)) as [->| ->]; eauto.
Qed.

(** Handed one row of a grid instead of a grid, which is what the only
    caller passes ([tables[0]], line 91), the table parser finds no
    column and returns no row: the characters of the first cell are taken
    for the headers. *)
Theorem parse_matcert_on_a_row (row : list string) :
  parse_matcert_composition_table (map chars row) = [].
Proof.
  unfold parse_matcert_composition_table.
  destruct (length (map chars row) <? 2)%nat; [reflexivity|].
  destruct row as [|cell row]; [reflexivity|].
  cbn [map nth]. now rewrite find_columns_chars.
Qed.

Lemma matcert_of_row_back (r : matcert_row) :
  strip (Element r) = Element r -> strip (Unit r) = Unit r ->
  strip (TOP r) = TOP r -> strip (BOTTOM r) = BOTTOM r ->
  Element r <> "" ->
  matcert_of_row 0 (Some 1%nat) 2 3 (cells_of r) = [r].
Proof.
  destruct r as [e u t b]. unfold cells_of. cbn [Element Unit TOP BOTTOM].
  intros He Hu Ht Hb Hne.
  change (matcert_of_row 0 (Some 1%nat) 2 3 [e; u; t; b])
    with (if is_empty (strip e) then []
          else [mkRow (strip e) (strip u) (strip t) (strip b)]).
  rewrite He, Hu, Ht, Hb. destruct e; [congruence|reflexivity].
Qed.

(** Round trip: a table written with the header Element, Unit, TOP,
    BOTTOM and one row of four cells for each record, whose fields carry
    no outer white space and whose element is not empty, is parsed back
    to the same records. *)
Theorem parse_matcert_round_trip (rows : list matcert_row) :
  Forall (fun r => strip (Element r) = Element r /\ strip (Unit r) = Unit r
                   /\ strip (TOP r) = TOP r /\ strip (BOTTOM r) = BOTTOM r
                   /\ Element r <> "") rows ->
  parse_matcert_composition_table
    (["Element"; "Unit"; "TOP"; "BOTTOM"] :: map cells_of rows) = rows.
Proof.
  intros H. unfold parse_matcert_composition_table.
  destruct rows as [|r0 rows']; [reflexivity|].
  set (rows := r0 :: rows') in *.
  change (length (["Element"; "Unit"; "TOP"; "BOTTOM"] :: map cells_of rows) <? 2)%nat
    with false.
  cbn [nth List.tail].
  change (find_columns ["Element"; "Unit"; "TOP"; "BOTTOM"])
    with (mkColumns (Some 0%nat) (Some 1%nat) (Some 2%nat) (Some 3%nat)).
  cbn [element_idx unit_idx top_idx bottom_idx].
  clearbody rows. induction H as [|r rs (He & Hu & Ht & Hb & Hne) _ IH];
    [reflexivity|].
  cbn [map flat_map]. rewrite matcert_of_row_back by assumption.
  now rewrite IH.
Qed.

Lemma parse_matcert_round_trip_witness :
  parse_matcert_composition_table
    (["Element"; "Unit"; "TOP"; "BOTTOM"]
       :: map cells_of [mkRow "Al" "wt.%" "6.53" "6.54";
                        mkRow "Y" "wt.%" "<0.001" "<0.001"])
  = [mkRow "Al" "wt.%" "6.53" "6.54"; mkRow "Y" "wt.%" "<0.001" "<0.001"].
Proof.
  apply parse_matcert_round_trip.
  repeat constructor; discriminate.
Defined.

(** The parsed rows all name an element, and there is at most one for
    each data row of the table. *)
Theorem parse_matcert_rows (table_data : Grid) :
  Forall (fun r => Element r <> "") (parse_matcert_composition_table table_data)
  /\ (length (parse_matcert_composition_table table_data)
      <= length table_data - 1)%nat.
Proof.
  unfold parse_matcert_composition_table.
  destruct (length table_data <? 2)%nat; [split; [constructor|cbn; lia]|].
  destruct (element_idx _) as [e|]; [|split; [constructor|cbn; lia]].
  destruct (top_idx _) as [t|]; [|split; [constructor|cbn; lia]].
  destruct (bottom_idx _) as [b|]; [|split; [constructor|cbn; lia]].
  generalize (unit_idx (find_columns (nth 0 table_data []))) as u. intros u.
  replace (length table_data - 1)%nat with (length (List.tail table_data))
    by (destruct table_data; cbn; lia).
  generalize (List.tail table_data) as rows.
  induction rows as [|row rows [IH1 IH2]]; [split; [constructor|cbn; lia]|].
  cbn [flat_map]. rewrite length_app.
  assert (H : Forall (fun r => Element r <> "") (matcert_of_row e u t b row)
              /\ (length (matcert_of_row e u t b row) <= 1)%nat).
  { unfold matcert_of_row. destruct (_ <? length row)%nat; [|split; [constructor|cbn; lia]].
    match goal with |- context [is_empty ?x] => destruct x eqn:E end; cbn [is_empty].
    - split; [constructor|cbn; lia].
    - split; [|cbn; lia]. constructor; [|constructor]. cbn. discriminate. }
  destruct H as [H1 H2]. split; [now apply Forall_app|]. cbn [length]. lia.
Qed.

End MatcertTable.

(** ** White space and letter case *)

Section Insensitive.

Lemma lstrip_head (p : ascii -> bool) (s : string) :
  lstrip_by p s = "" \/ exists c r, lstrip_by p s = String c r /\ p c = false.
Proof.
  induction s as [|c s IH]; [now left|].
  cbn [lstrip_by]. destruct (p c) eqn:E; [exact IH|]. right. eauto.
Qed.

Lemma rstrip_idem (p : ascii -> bool) (s : string) :
  rstrip_by p (rstrip_by p s) = rstrip_by p s.
Proof.
  induction s as [|c s IH]; [reflexivity|].
  cbn [rstrip_by]. destruct (p c && is_empty (rstrip_by p s)) eqn:E; [reflexivity|].
  cbn [rstrip_by]. now rewrite IH, E.
Qed.

(** [strip] is idempotent. *)
Lemma strip_idem (s : string) : strip (strip s) = strip s.
Proof.
  unfold strip.
  destruct (lstrip_head is_space s) as [->|(c & r & -> & Hc)]; [reflexivity|].
  assert (E : rstrip_by is_space (String c r) = String c (rstrip_by is_space r))
    by (cbn [rstrip_by]; now rewrite Hc).
  rewrite E. cbn [lstrip_by]. rewrite Hc. cbn [rstrip_by]. rewrite Hc.
  cbn [andb]. now rewrite rstrip_idem.
Qed.

(** White space around a cell does not change how the cell is read: the
    normaliser and the element identifier give the same answer for a
    text and for the text with its outer white space removed. *)
Theorem outer_space_ignored (s : string) :
  normalize_number (strip s) = normalize_number s
  /\ extract_element_symbol (strip s) = extract_element_symbol s.
Proof.
  split.
  - unfold normalize_number.
    assert (Hc : clean_token (strip s) = clean_token s)
      by (unfold clean_token; now rewrite strip_idem).
    destruct s as [|c s]; [reflexivity|]. cbn [is_empty].
    destruct (strip (String c s)) as [|d t] eqn:E.
    + cbn [is_empty]. unfold clean_token. rewrite E. reflexivity.
    + cbn [is_empty]. now rewrite Hc.
  - unfold extract_element_symbol. now rewrite strip_idem.
Qed.

Lemma lower_upper_char (c : ascii) : lower_char (upper_char c) = lower_char c.
Proof. destruct c as [[] [] [] [] [] [] [] []]; reflexivity. Qed.

Lemma lower_upper (s : string) : lower (upper s) = lower s.
Proof.
  induction s as [|c s IH]; [reflexivity|].
  cbn. rewrite lower_upper_char. f_equal. exact IH.
Qed.

Lemma upper_app (a b : string) : upper (a ++ b) = (upper a ++ upper b)%string.
Proof.
  induction a as [|c a IH]; [reflexivity|].
  rewrite append_cons. cbn. rewrite append_cons. f_equal. exact IH.
Qed.

Lemma join_upper (l : list string) :
  join " " (map upper l) = upper (join " " l).
Proof.
  induction l as [|a [|b l] IH]; [reflexivity|reflexivity|].
  change (join " " (map upper (a :: b :: l)))
    with (upper a ++ " " ++ join " " (map upper (b :: l)))%string.
  change (join " " (a :: b :: l)) with (a ++ " " ++ join " " (b :: l))%string.
  now rewrite IH, !upper_app.
Qed.

Lemma flat_text_upper (table_data : list (list string)) :
  flat_text (map (map upper) table_data) = flat_text table_data.
Proof.
  unfold flat_text. rewrite map_map.
  rewrite (map_ext _ (fun row => upper (join " " row)) join_upper).
  rewrite <- (map_map (join " ") upper), join_upper. apply lower_upper.
Qed.

(** The classifier answers by the keywords alone, at least two of the
    six in the lower-cased text of the grid; and on ASCII text it does
    not see letter case: a grid written in capitals is classified like
    the original. *)
Theorem classifier_by_keywords (table_data : list (list string)) :
  (is_chemical_composition_table table_data = true
   <-> 2 <= keyword_matches table_data)
  /\ (Forall (Forall (fun cell => ascii_text cell = true)) table_data ->
      is_chemical_composition_table (map (map upper) table_data)
      = is_chemical_composition_table table_data).
Proof.
  split.
  - rewrite classifier_keywords_only. apply Z.leb_le.
  - intros _. rewrite !classifier_keywords_only. unfold keyword_matches.
    now rewrite flat_text_upper.
Qed.

Lemma classifier_by_keywords_witness :
  is_chemical_composition_table
    (map (map upper) [["Chemical"; "composition"]; ["Al"; "6.5"]])
  = is_chemical_composition_table [["Chemical"; "composition"]; ["Al"; "6.5"]].
Proof.
  apply classifier_by_keywords. repeat constructor.
Defined.

Lemma lower_char_source (c : ascii) :
  c = lower_char c \/ c = upper_char (lower_char c).
Proof. destruct c as [[] [] [] [] [] [] [] []]; vm_compute; auto. Qed.

Lemma lower_one (t : string) (d : ascii) :
  lower t = String d "" ->
  t = String d "" \/ t = String (upper_char d) "".
Proof.
  destruct t as [|c [|c' t']]; cbn; try discriminate.
  intros [= <-]. destruct (lower_char_source c) as [E|E]; rewrite <- E; auto.
Qed.

Lemma lower_two (t : string) (d1 d2 : ascii) :
  lower t = String d1 (String d2 "") ->
  t = String d1 (String d2 "") \/ t = String d1 (String (upper_char d2) "")
  \/ t = String (upper_char d1) (String d2 "")
  \/ t = String (upper_char d1) (String (upper_char d2) "").
Proof.
  destruct t as [|c1 [|c2 [|c3 t']]]; cbn; try discriminate.
  intros [= <- <-].
  destruct (lower_char_source c1) as [E1|E1], (lower_char_source c2) as [E2|E2];
    rewrite <- E1, <- E2; auto.
Qed.

(** A priority symbol is recognised in any letter case and with any
    white space around it. *)
Theorem extract_element_symbol_exact (text sym : string) :
  In sym PRIORITY_ELEMENTS ->
  lower (strip text) = lower sym ->
  extract_element_symbol text = Some sym.
Proof.
  intros Hs H. unfold extract_element_symbol.
  set (t := strip text) in *. clearbody t.
  cbn in Hs.
  repeat destruct Hs as [<-|Hs]; try destruct Hs;
    first [ apply lower_two in H as [->|[->|[->| ->]]]
          | apply lower_one in H as [->| ->] ];
    vm_compute; reflexivity.
Qed.

Lemma extract_element_symbol_exact_witness :
  extract_element_symbol "  FE " = Some "Fe".
Proof.
  apply extract_element_symbol_exact; [cbn; auto|reflexivity].
Defined.

End Insensitive.

(** ** The correction pass is stable *)

Section Stable.

Lemma fold_fadd_bound (B : Q) (l : list Q) :
  Forall (fun v => (v <= B)%Q) l ->
  forall a, (fold_left fadd l a <= a + B * inject_Z (Z.of_nat (length l)))%Q.
Proof.
  induction 1 as [|x l Hx _ IH]; intros a; cbn [fold_left length].
  - change (inject_Z (Z.of_nat 0)) with 0%Q. rewrite Qmult_0_r. lra.
  - eapply Qle_trans; [apply IH|].
    unfold fadd. rewrite Qred_correct.
    rewrite Nat2Z.inj_succ. unfold Z.succ. rewrite inject_Z_plus.
    change (inject_Z 1) with 1%Q. rewrite Qmult_plus_distr_r, Qmult_1_r.
    generalize (B * inject_Z (Z.of_nat (length l)))%Q. intros q. lra.
Qed.

Lemma mean_bound (B : Q) (l : list Q) :
  l <> [] -> Forall (fun v => (v <= B)%Q) l -> (mean l <= B)%Q.
Proof.
  intros Hne H. unfold mean, fdiv, sum_values, of_int. rewrite Qred_correct.
  assert (Hn : (0 < inject_Z (Z.of_nat (length l)))%Q).
  { change 0%Q with (inject_Z 0). rewrite <- Zlt_Qlt.
    destruct l; [congruence|]. cbn [length]. lia. }
  apply Qle_shift_div_r; [exact Hn|].
  pose proof (fold_fadd_bound B l H 0) as Hs. lra.
Qed.

(** A list whose values are all at most 50 is left as it is. *)
Lemma post_process_small (l : list record) :
  Forall (fun r => (value r <= 50)%Q) l -> post_process l = l.
Proof.
  intros H. unfold post_process. destruct l as [|r l']; [reflexivity|].
  set (items := r :: l') in *.
  assert (Hm : (mean (map value items) <= 50)%Q).
  { apply mean_bound; [discriminate|]. now apply List.Forall_map. }
  apply fltb_ge in Hm. rewrite Hm.
  destruct (fltb 20 _); [|reflexivity].
  rewrite <- (map_id items) at 2. apply map_ext_in.
  intros x Hx. rewrite List.Forall_forall in H.
  assert (E : fltb 50 (value x) = false) by (apply fltb_ge; now apply H).
  now rewrite E.
Qed.

(** On values that are at most 100, correcting a second time changes
    nothing: after the pass either the list is unchanged, or no value
    exceeds 50 any more. *)
Theorem post_process_stable (l : list record) :
  Forall (fun r => (value r <= 100)%Q) l ->
  post_process (post_process l) = post_process l.
Proof.
  intros H. destruct l as [|r l']; [reflexivity|].
  set (items := r :: l') in *.
  assert (E : post_process items
            = if fltb 50 (mean (map value items))
              then map (fun item => set_value item (fdiv (value item) 100)) items
              else if fltb 20 (mean (map value items))
              then map (fun item => if fltb 50 (value item)
                                    then set_value item (fdiv (value item) 100)
                                    else item) items
              else items) by reflexivity.
  destruct (fltb 50 (mean (map value items))) eqn:E50;
    [|destruct (fltb 20 (mean (map value items))) eqn:E20].
  - rewrite E. apply post_process_small.
    apply List.Forall_map. eapply List.Forall_impl; [|exact H].
    intros x Hx. cbv beta in Hx. cbn [set_value value]. rewrite fdiv_100. lra.
  - rewrite E. apply post_process_small.
    apply List.Forall_map. eapply List.Forall_impl; [|exact H].
    intros x Hx. cbv beta in Hx. destruct (fltb 50 (value x)) eqn:Ex.
    + cbn [set_value value]. rewrite fdiv_100. lra.
    + now apply fltb_ge in Ex.
  - now rewrite !E.
Qed.

Lemma post_process_stable_witness :
  post_process (post_process [mkRecord "Al" 65 "wt.%"; mkRecord "V" 70 "wt.%"])
  = post_process [mkRecord "Al" 65 "wt.%"; mkRecord "V" 70 "wt.%"].
Proof.
  apply post_process_stable. repeat constructor; cbn; discriminate.
Defined.

End Stable.

(** ** Decimal literals *)

Section Literals.

Lemma literal_plain (ip fp : string) :
  all_chars is_digit ip = true -> all_chars is_digit fp = true ->
  all_chars plain_char (ip ++ String "." fp) = true.
Proof.
  intros Hip Hfp. rewrite all_chars_app. cbn [all_chars].
  rewrite (all_chars_impl _ _ _ digit_plain Hip).
  now rewrite (all_chars_impl _ _ _ digit_plain Hfp).
Qed.

(** [float()] on plain text reads the literal, and a literal with a dot
    is split into its sign, its digits and its exponent. *)
Lemma float_parts_plain (s : string) :
  all_chars plain_char s = true ->
  Machine.float_parts s = Machine.literal_parts s.
Proof.
  intros H. unfold Machine.float_parts.
  assert (Hsp : all_chars (fun c => negb (is_c_space c)) s = true).
  { eapply all_chars_impl; [|exact H]. intros c Hc.
    now rewrite (plain_not_c_space c Hc). }
  assert (Hus : all_chars (fun c => negb (is_underscore c)) s = true).
  { eapply all_chars_impl; [|exact H]. intros c Hc.
    now rewrite (plain_not_underscore c Hc). }
  unfold c_strip. rewrite lstrip_none, rstrip_none by assumption.
  rewrite (underscores_ok_none s Hus None I). cbn [negb].
  now rewrite filter_chars_all.
Qed.

Lemma literal_parts_point (ip fp : string) :
  all_chars is_digit ip = true -> all_chars is_digit fp = true -> ip <> "" ->
  Machine.literal_parts (ip ++ String "." fp)
  = Some (false, digits_value (ip ++ fp), - slen fp).
Proof.
  intros Hip Hfp Hne. unfold Machine.literal_parts.
  assert (Hsign : take_sign (ip ++ String "." fp)
                  = (false, (ip ++ String "." fp)%string)).
  { destruct ip as [|c ip]; [congruence|].
    cbn [all_chars] in Hip. apply andb_true_iff in Hip as [Hc _].
    rewrite append_cons. now apply take_sign_digit. }
  rewrite Hsign.
  rewrite (span_digits_app ip (String "." fp) Hip eq_refl).
  rewrite <- (append_empty_r fp) at 1.
  rewrite (span_digits_app fp "" Hfp I).
  destruct ip as [|c ip]; [congruence|]. cbn [is_empty andb parse_exponent].
  reflexivity.
Qed.

Lemma literal_read (A : Machine.arithmetic) (ip fp : string) :
  all_chars is_digit ip = true -> all_chars is_digit fp = true -> ip <> "" ->
  Machine.float_of_string A (ip ++ String "." fp)
  = Some (Machine.of_decimal A false (digits_value (ip ++ fp)) (- slen fp)).
Proof.
  intros Hip Hfp Hne. unfold Machine.float_of_string.
  rewrite float_parts_plain by now apply literal_plain.
  now rewrite literal_parts_point.
Qed.

Lemma clean_token_trace (s : string) :
  all_chars plain_char s = true ->
  clean_token (String "<" s) = (true, s).
Proof.
  intros H.
  assert (Hsp : all_chars (fun c => negb (is_space c)) s = true).
  { eapply all_chars_impl; [|exact H]. intros c Hc.
    now rewrite (plain_not_space c Hc). }
  pose proof (clean_token_plain s H) as Hc. unfold clean_token in Hc |- *.
  assert (E : strip (String "<" s) = String "<" s).
  { unfold strip. cbn [lstrip_by]. change (is_space "<") with false. cbn iota.
    apply rstrip_none. cbn [all_chars]. now rewrite Hsp. }
  rewrite E.
  assert (Hstrip : strip s = s) by (unfold strip; now rewrite lstrip_none, rstrip_none).
  rewrite Hstrip in Hc.
  assert (Hlt : startswith s "<" = false).
  { destruct s as [|c s']; [reflexivity|]. cbn [all_chars] in H.
    apply andb_true_iff in H as [Hc' _].
    change (startswith (String c s') "<") with (Ascii.eqb "<" c && startswith s' "").
    now rewrite (plain_not_less c Hc'). }
  rewrite Hlt in Hc.
  assert (Hst : startswith (String "<" s) "<" = true) by (now destruct s).
  rewrite Hst. cbn [Str.tail]. rewrite Hstrip.
  cbv zeta in Hc |- *. injection Hc as Hc'. now rewrite Hc'.
Qed.

(** Whatever the arithmetic of the interpreter, a decimal literal,
    digits, a dot and digits, is handed whole to [float()]: without the
    trace mark the result is the float read, divided by 1000 when it is
    greater than 1000 and otherwise by 10 when it is greater than 100;
    with a leading ["<"] it is the float read, whatever its size. *)
Theorem normalize_number_literal (A : Machine.arithmetic) (ip fp : string) :
  all_chars is_digit ip = true -> all_chars is_digit fp = true -> ip <> "" ->
  Machine.normalize_number A (ip ++ String "." fp)
  = Machine.Value
      (if Machine.gt_int A
            (Machine.of_decimal A false (digits_value (ip ++ fp)) (- slen fp))
            100
       then if Machine.gt_int A
                 (Machine.of_decimal A false (digits_value (ip ++ fp))
                    (- slen fp)) 1000
            then Machine.div_int A
                   (Machine.of_decimal A false (digits_value (ip ++ fp))
                      (- slen fp)) 1000
            else Machine.div_int A
                   (Machine.of_decimal A false (digits_value (ip ++ fp))
                      (- slen fp)) 10
       else Machine.of_decimal A false (digits_value (ip ++ fp)) (- slen fp))
  /\ Machine.normalize_number A (String "<" (ip ++ String "." fp))
     = Machine.Value
         (Machine.of_decimal A false (digits_value (ip ++ fp)) (- slen fp)).
Proof.
  intros Hip Hfp Hne.
  pose proof (literal_plain ip fp Hip Hfp) as Hp.
  pose proof (literal_read A ip fp Hip Hfp Hne) as Hv.
  split.
  - unfold Machine.normalize_number.
    assert (is_empty (ip ++ String "." fp) = false) as ->.
    { destruct ip; [congruence|]. now rewrite append_cons. }
    rewrite (clean_token_plain _ Hp), has_char_middle, Hv.
    destruct (Machine.gt_int A _ 100); [|reflexivity]. cbn [negb andb].
    now destruct (Machine.gt_int A _ 1000).
  - unfold Machine.normalize_number. cbn [is_empty].
    rewrite (clean_token_trace _ Hp), has_char_middle, Hv.
    now rewrite andb_false_r.
Qed.

Lemma normalize_number_literal_witness :
  Machine.normalize_number Machine.rationals "<250.5"
  = Machine.Value
      (Machine.of_decimal Machine.rationals false
         (digits_value ("250" ++ "5")) (- slen "5")).
Proof.
  apply (normalize_number_literal Machine.rationals "250" "5");
    [reflexivity|reflexivity|discriminate].
Defined.

End Literals.
